(** * The autonomous agent's turn loop (src/agents/autonomous/handler.ts)

    A shallow embedding of [generateContentStreamWithRetry] and
    [runAutonomousAgent].  Everything the handler obtains from a
    collaborator (the completion provider, the router, the memory store,
    the search pipeline, the abort signal) is read from a [World] value;
    everything it does to a collaborator (callback invocations, provider
    requests, sleeps, search requests) is written to a [Trace]. *)

From Stdlib Require Import ZArith List Bool Lia Ascii String.
From Stdlib Require Import DecimalString.
Import ListNotations.

Open Scope string_scope.
Open Scope list_scope.

(* ===================================================================== *)
(** ** JavaScript strings *)
(* ===================================================================== *)

(** JavaScript strings are modelled as byte strings.  All the tags and
    markers the handler looks for are ASCII. *)
Module Js.

Fixpoint drop (n : nat) (s : string) : string :=
  match n, s with
  | O, _ => s
  | S _, EmptyString => EmptyString
  | S n', String _ s' => drop n' s'
  end.

(** [s.startsWith(p)] *)
Definition startsWith (p s : string) : bool := String.prefix p s.

(** Split [s] around the first occurrence of [p]:
    [s.indexOf(p)] together with the text before and after the hit. *)
Fixpoint splitFirst (p s : string) : option (string * string) :=
  if String.prefix p s then Some (EmptyString, drop (String.length p) s)
  else match s with
       | EmptyString => None
       | String c s' =>
           match splitFirst p s' with
           | Some (b, a) => Some (String c b, a)
           | None => None
           end
       end.

(** [s.includes(p)] *)
Definition includes (p s : string) : bool :=
  match splitFirst p s with Some _ => true | None => false end.

(** White space removed by [trim] (the ASCII part of the ECMAScript
    WhiteSpace and LineTerminator classes). *)
Definition isSpace (c : ascii) : bool :=
  match nat_of_ascii c with
  | 9 | 10 | 11 | 12 | 13 | 32 => true
  | _ => false
  end.

Fixpoint trimStart (s : string) : string :=
  match s with
  | EmptyString => EmptyString
  | String c s' => if isSpace c then trimStart s' else s
  end.

Fixpoint trimEnd (s : string) : string :=
  match s with
  | EmptyString => EmptyString
  | String c s' =>
      match trimEnd s' with
      | EmptyString => if isSpace c then EmptyString else String c EmptyString
      | t => String c t
      end
  end.

(** [s.trim()] *)
Definition trim (s : string) : string := trimEnd (trimStart s).

(** Truthiness of a string value: [""] is falsy. *)
Definition truthy (s : string) : bool :=
  match s with EmptyString => false | String _ _ => true end.

(** Truthiness of a possibly [undefined] string. *)
Definition truthyOpt (o : option string) : bool :=
  match o with Some s => truthy s | None => false end.

(** [a || b] on strings. *)
Definition orElse (a b : string) : string := if truthy a then a else b.

(** A template literal prints [undefined] for a missing value. *)
Definition interpolate (o : option string) : string :=
  match o with Some s => s | None => "undefined" end.

(** Decimal rendering of a non-negative integer. *)
Definition ofNat (n : nat) : string := NilEmpty.string_of_uint (Nat.to_uint n).
Definition ofZ (z : Z) : string := NilEmpty.string_of_int (Z.to_int z).

(** [xs.join(sep)] *)
Fixpoint join (sep : string) (xs : list string) : string :=
  match xs with
  | [] => EmptyString
  | [x] => x
  | x :: rest => x ++ sep ++ join sep rest
  end.

(** [s.match(/OPEN([\s\S]*?)CLOSE/)]: the lazy group stops at the first
    CLOSE that follows the first OPEN.  Returns capture group 1 and the
    text after the whole match. *)
Definition matchTag (open close s : string) : option (string * string) :=
  match splitFirst open s with
  | None => None
  | Some (_, afterOpen) =>
      match splitFirst close afterOpen with
      | None => None
      | Some (body, rest) => Some (body, rest)
      end
  end.

(** [[...s.matchAll(/OPEN([\s\S]*?)CLOSE/g)].map(m => m[1])]: the search
    resumes where the previous match ended. *)
Fixpoint matchAllFuel (fuel : nat) (open close s : string) : list string :=
  match fuel with
  | O => []
  | S fuel' =>
      match matchTag open close s with
      | None => []
      | Some (body, rest) => body :: matchAllFuel fuel' open close rest
      end
  end.

Definition matchAll (open close s : string) : list string :=
  matchAllFuel (S (String.length s)) open close s.

End Js.


Definition nl : string := String (ascii_of_nat 10) EmptyString.
Definition dquote : string := String (ascii_of_nat 34) EmptyString.

(* ===================================================================== *)
(** ** Data model *)
(* ===================================================================== *)

(** A thrown value, as far as the handler inspects it:
    [error.name], [error.status], [error.message]. *)
Record JsError := mkError {
  errName : string;
  errStatus : option Z;
  errMessage : option string
}.

(** [new Error(msg)] *)
Definition newError (msg : string) : JsError := mkError "Error" None (Some msg).

(** Modelled from the spec: the [RouterAction] type of
    services/semanticRouter, "one of a small closed set: SIMPLE, SEARCH,
    DEEP_SEARCH, IMAGE, PROJECT, CANVAS, STUDY"; these are also the values
    the handler assigns to [currentAction]. *)
Inductive RouterAction :=
  SIMPLE | SEARCH | DEEP_SEARCH | IMAGE | PROJECT | CANVAS | STUDY.

(** [thinkingMode]: the three values the handler tests for, and any other. *)
Inductive ThinkingMode := Instant | Deep | Think | Standard.

Record Profile := {
  preferred_deep_model : option string;
  openrouter_api_key : option string
}.

(** Modelled from the spec: the [WebSearchResult] type of
    services/externalSearchService, "title, url, content/snippet"; the
    handler reads [p.title], [p.url], [p.content] and [p.snippet].  A search
    hit, before or after its page was fetched. *)
Record WebSearchResult := {
  title : string;
  url : string;
  content : option string;
  snippet : option string
}.

(** [{ web: { uri, title } }] *)
Record GroundingChunk := { uri : string; webTitle : string }.

(** One element of the provider's stream: [chunk.text] and
    [chunk.candidates?.[0]?.groundingMetadata?.groundingChunks]. *)
Record Chunk := {
  chunkText : option string;
  groundingChunks : option (list GroundingChunk)
}.

(** What one step of [for await (const chunk of generator)] brings: a chunk,
    together with the value [signal?.aborted] has when the loop body starts
    on it, or an exception out of the generator.  The end of the list is the
    end of the stream. *)
Inductive StreamItem :=
| Yield (aborted : bool) (chunk : Chunk)
| GeneratorThrows (e : JsError).

Record Message := {
  project_id : string;
  chat_id : string;
  sender : string;
  text : string;
  groundingMetadata : option (list GroundingChunk)
}.

(** Modelled from the spec: the [AgentInput] type of agents/types, as far
    as it decides control flow; the fields are those line 91 destructures.
    History, files and credentials only flow into the request payloads.
    [model = None] and [profile = None] stand for [undefined]. *)
Record AgentInput := {
  prompt : string;
  model : option string;
  thinkingMode : ThinkingMode;
  profile : option Profile;
  onStreamChunk : bool;          (* was a callback supplied? *)
  projectId : string;
  chatId : string
}.

(** Observable actions, in program order. *)
Inductive Event :=
| EvChunk (s : string)                    (* line 321: a chunk forwarded *)
| EvNotice (s : string)                   (* any other [onStreamChunk] call *)
| EvAppend (s : string)                   (* [finalResponseText += s] *)
| EvGenerate (model prompt : string) (attempt : Z)
                                          (* [ai.models.generateContentStream] *)
| EvSleep (ms : Z)                        (* [setTimeout(resolve, ms)] *)
| EvRoute                                 (* [router.route] *)
| EvSearch (query : string) (limit : nat) (* [runMcpWebSearch] *)
| EvTurn (loopCount : nat) (action : RouterAction) (turnPrompt : string).
                                          (* [loopCount++]: a turn begins *)

Definition Trace := list Event.

(** What the collaborators do during one turn of the dispatch loop. *)
Record TurnWorld := {
  signalAborted : bool;
  generateContentStream : Z -> JsError + list StreamItem;
  runMcpWebSearch : nat -> string -> option (list WebSearchResult);
  fetchContentsForResults :
    nat -> list WebSearchResult -> option (list WebSearchResult)
}.

(** What the collaborators do during one call of [runAutonomousAgent].
    [None] in a search field stands for a thrown exception;
    [turn n] is consulted while [loopCount = n]. *)
Record World := {
  generateFreeCompletion : JsError + string;
  route : JsError + RouterAction;
  shouldUseExternalSearch : string -> bool -> bool -> bool;
  initialSearch : option (list WebSearchResult);
  initialFetch : list WebSearchResult -> option (list WebSearchResult);
  getContext : option JsError;
  getUserFriendlyError : JsError -> string;
  turn : nat -> TurnWorld
}.

(* ===================================================================== *)
(** ** generateContentStreamWithRetry *)
(* ===================================================================== *)

Definition DEFAULT_MODEL : string := "gemini-2.5-flash".

(** [error.status === 429 || (error.message && error.message.includes('429'))
     || (error.message && error.message.includes('quota'))] *)
Definition isQuotaError (error : JsError) : bool :=
  match errStatus error with Some s => Z.eqb s 429 | None => false end
  || match errMessage error with
     | Some m => Js.truthy m && Js.includes "429" m
     | None => false
     end
  || match errMessage error with
     | Some m => Js.truthy m && Js.includes "quota" m
     | None => false
     end.

(** [Math.pow(2, attempt) * 2000 + 1000] *)
Definition retryDelay (attempt : Z) : Z := (2 ^ attempt * 2000 + 1000)%Z.

(** [Math.round(delay/1000)]: the nearest integer, halves upwards. *)
Definition roundSeconds (delay : Z) : Z := ((delay + 500) / 1000)%Z.

Definition retryNotice (delay : Z) : string :=
  "(Rate limit hit. Retrying in " ++ Js.ofZ (roundSeconds delay) ++ "s...)".

Inductive RetryResult (A : Type) :=
| Returned (stream : A)          (* [return await ...] *)
| Rethrown (error : JsError)     (* [throw error] in the catch clause *)
| ThrownAfterLoop                (* [throw new Error("Max retries exceeded")] *)
| RetryOutOfFuel.
Arguments Returned {A} _.
Arguments Rethrown {A} _.
Arguments ThrownAfterLoop {A}.
Arguments RetryOutOfFuel {A}.

Section Retry.

Context {A : Type}.
(** The provider, as the outcome of the call made on each attempt; the
    model and the prompt of [params]. *)
Variable provider : Z -> JsError + A.
Variable paramsModel : option string.
Variable paramsPrompt : string.
Variable retries : Z.
Variable onRetry : option (string -> Trace).

(** [if (!params.model) params.model = 'gemini-2.5-flash'] *)
Definition requestModel : string :=
  if Js.truthyOpt paramsModel then Js.interpolate paramsModel
  else DEFAULT_MODEL.

(** [ai.models.generateContentStream(params)] on the given attempt. *)
Definition request (attempt : Z) : Event :=
  EvGenerate requestModel paramsPrompt attempt.

(** [if (onRetry) onRetry(msg)] *)
Definition notify (msg : string) : Trace :=
  match onRetry with Some f => f msg | None => [] end.

(** The [for (attempt; attempt <= retries; attempt++)] loop, entered with
    the given value of [attempt]. *)
Fixpoint retryFrom (fuel : nat) (attempt : Z) : Trace * RetryResult A :=
  match fuel with
  | O => ([], RetryOutOfFuel)
  | S fuel' =>
      if (attempt <=? retries)%Z then
        match provider attempt with
        | inr stream => ([request attempt], Returned stream)
        | inl error =>
            if isQuotaError error && (attempt <? retries)%Z then
              let delay := retryDelay attempt in
              let '(tr, r) := retryFrom fuel' (attempt + 1)%Z in
              (request attempt :: notify (retryNotice delay)
                 ++ EvSleep delay :: tr, r)
            else ([request attempt], Rethrown error)
        end
      else ([], ThrownAfterLoop)
  end.

Definition retryFuel : nat := S (Z.to_nat (retries + 1)).

Definition generateContentStreamWithRetry : Trace * RetryResult A :=
  retryFrom retryFuel 0%Z.

End Retry.

(* ===================================================================== *)
(** ** runAutonomousAgent *)
(* ===================================================================== *)

Definition MAX_LOOPS : nat := 6.

Definition isGoogleModel (model : string) : bool :=
  if negb (Js.truthy model) then true
  else Js.startsWith "gemini" model || Js.startsWith "veo" model
       || Js.includes "google" model.

(** [onStreamChunk?.(chunk.text)] at line 321. *)
Definition forward (inp : AgentInput) (s : string) : Trace :=
  if onStreamChunk inp then [EvChunk s] else [].

(** [onStreamChunk?.(s)] anywhere else. *)
Definition emit (inp : AgentInput) (s : string) : Trace :=
  if onStreamChunk inp then [EvNotice s] else [].

Definition thinkingSwitchNotice : string :=
  nl ++ "*(Switched to Gemini 2.5 Flash for Thinking mode compatibility)*" ++ nl.

Definition fallbackNotice : string :=
  nl ++ "*(OpenRouter key missing, falling back to Gemini...)*" ++ nl.

Definition stoppedByUser : string := "(Generation stopped by user)".

(** Lines 146-159: the model and thinking budget chosen from the input. *)
Definition modeModel (inp : AgentInput) : string * Z :=
  let model0 :=
    match model inp with
    | Some m => if negb (Js.truthy m) || (Js.trim m =? "")%string
                then DEFAULT_MODEL else m
    | None => DEFAULT_MODEL
    end in
  match thinkingMode inp with
  | Deep =>
      let preferredDeep :=
        match profile inp with
        | Some p => preferred_deep_model p
        | None => None
        end in
      (if Js.truthyOpt preferredDeep then Js.interpolate preferredDeep
       else "gemini-3-pro-preview", 8192%Z)
  | Think => (DEFAULT_MODEL, 2048%Z)
  | _ => (model0, 0%Z)
  end.

(** Lines 161-164. *)
Definition needsThinkingSwitch (m : string) (thinkingBudget : Z) : bool :=
  (0 <? thinkingBudget)%Z && negb (Js.includes "gemini-2.5" m)
  && negb (Js.includes "gemini-3" m).


(** [!isNative && !openRouterKey] (line 173), [isNative] being computed from
    the active model. *)
Definition keyMissing (inp : AgentInput) : bool :=
  negb (Js.truthyOpt match profile inp with
                     | Some p => openrouter_api_key p
                     | None => None
                     end).

(** The values fixed before the loop starts. *)
Record Setup := {
  effectiveModel : string;
  isNative : bool;
  modelSupportsSearch : bool;
  thinkingBudget : Z
}.

Definition setup (inp : AgentInput) : Trace * Setup :=
  let '(m, budget) := modeModel inp in
  let tr1 := if needsThinkingSwitch m budget then emit inp thinkingSwitchNotice
             else [] in
  let m := if needsThinkingSwitch m budget then DEFAULT_MODEL else m in
  let native := isGoogleModel m in
  let supportsSearch := native || Js.includes "perplexity" m in
  if negb native && keyMissing inp
  then (tr1 ++ emit inp fallbackNotice,
        {| effectiveModel := DEFAULT_MODEL; isNative := native;
           modelSupportsSearch := supportsSearch; thinkingBudget := budget |})
  else (tr1,
        {| effectiveModel := m; isNative := native;
           modelSupportsSearch := supportsSearch; thinkingBudget := budget |}).

(** The variables the loop mutates. *)
Record LoopState := {
  finalResponseText : string;
  metadataPayload : option (list GroundingChunk);
  fallbackSearchContext : string;
  currentAction : RouterAction;
  currentPrompt : string;
  loopCount : nat;
  routingParameters : option string
}.

Definition toMeta (p : WebSearchResult) : GroundingChunk :=
  {| uri := url p; webTitle := title p |}.

(** [if (!metadataPayload.groundingMetadata) ... = []; ....push(...more)] *)
Definition pushMetadata (g : option (list GroundingChunk))
    (more : list GroundingChunk) : option (list GroundingChunk) :=
  Some (match g with Some l => l | None => [] end ++ more).

(** Lines 332-340: a closing tag has arrived. *)
Definition hasClosingTag (generatedThisLoop : string) : bool :=
  Js.includes "</CANVAS_TRIGGER>" generatedThisLoop
  || Js.includes "</CANVASTRIGGER>" generatedThisLoop
  || Js.includes "</SEARCH>" generatedThisLoop
  || Js.includes "</DEEP>" generatedThisLoop
  || Js.includes "</IMAGE>" generatedThisLoop
  || Js.includes "</PROJECT>" generatedThisLoop
  || Js.includes "</CANVAS>" generatedThisLoop
  || Js.includes "</STUDY>" generatedThisLoop.

(** How the [for await] loop was left. *)
Inductive StreamEnd :=
| Exhausted                    (* the generator finished *)
| TagBreak                     (* [break] on a closing tag *)
| AbortBreak                   (* [break] on [signal?.aborted] *)
| StreamThrew (e : JsError).   (* the generator threw *)

Section Turn.

Variable inp : AgentInput.
Variable w : World.
Variable cfg : Setup.

(** Lines 319-329: one chunk with text is taken in. *)
Definition takeChunk (t : string) (c : Chunk) (st : LoopState) : LoopState :=
  {| finalResponseText := (finalResponseText st ++ t)%string;
     metadataPayload :=
       if isNative cfg then
         match groundingChunks c with
         | Some more => pushMetadata (metadataPayload st) more
         | None => metadataPayload st
         end
       else metadataPayload st;
     fallbackSearchContext := fallbackSearchContext st;
     currentAction := currentAction st;
     currentPrompt := currentPrompt st;
     loopCount := loopCount st;
     routingParameters := routingParameters st |}.

(** Lines 316-344: the [for await] loop. *)
Fixpoint consumeStream (items : list StreamItem) (generatedThisLoop : string)
    (st : LoopState) : Trace * (StreamEnd * string * LoopState) :=
  match items with
  | [] => ([], (Exhausted, generatedThisLoop, st))
  | GeneratorThrows e :: _ => ([], (StreamThrew e, generatedThisLoop, st))
  | Yield aborted c :: rest =>
      if aborted then ([], (AbortBreak, generatedThisLoop, st))
      else
        match chunkText c with
        | Some (String a t' as t) =>
            let generated' := (generatedThisLoop ++ t)%string in
            let st' := takeChunk t c st in
            if hasClosingTag generated'
            then (EvAppend t :: forward inp t, (TagBreak, generated', st'))
            else
              let '(tr, r) := consumeStream rest generated' st' in
              (EvAppend t :: forward inp t ++ tr, r)
        | _ => consumeStream rest generatedThisLoop st
        end
  end.

(** Lines 358-366: one query of the batch; a failure of either stage is
    caught and leaves no pages. *)
Definition searchOne (tw : TurnWorld) (i : nat) (q : string)
    : string * list WebSearchResult :=
  match runMcpWebSearch tw i q with
  | Some results =>
      match fetchContentsForResults tw i results with
      | Some pages => (q, pages)
      | None => (q, [])
      end
  | None => (q, [])
  end.

Fixpoint searchFrom (tw : TurnWorld) (i : nat) (queries : list string)
    : list (string * list WebSearchResult) :=
  match queries with
  | [] => []
  | q :: rest => searchOne tw i q :: searchFrom tw (S i) rest
  end.

(** [await Promise.all(queries.map(async q => ...))] *)
Definition parallelResults (tw : TurnWorld) (queries : list string)
    : list (string * list WebSearchResult) :=
  searchFrom tw 0 queries.

(** [r => r.pages.length > 0] *)
Definition hasPages (r : string * list WebSearchResult) : bool :=
  (0 <? List.length (snd r))%nat.

(** [res.pages.map((p, i) => `[${i+1}] ${p.title} (${p.url}):\n${p.content}`)] *)
Fixpoint renderPagesFrom (i : nat) (pages : list WebSearchResult)
    : list string :=
  match pages with
  | [] => []
  | p :: rest =>
      ("[" ++ Js.ofNat (i + 1) ++ "] " ++ title p ++ " (" ++ url p ++ "):"
         ++ nl ++ Js.interpolate (content p))%string
      :: renderPagesFrom (S i) rest
  end.

Definition renderPages (pages : list WebSearchResult) : string :=
  Js.join (nl ++ nl) (renderPagesFrom 0 pages).

(** What one valid result adds to [aggregatedContext] (lines 379-380). *)
Definition renderResult (res : string * list WebSearchResult) : string :=
  (nl ++ nl ++ "=== WEB RESULTS FOR QUERY: " ++ dquote ++ fst res ++ dquote
     ++ " ===" ++ nl ++ renderPages (snd res))%string.

Definition aggregate (validResults : list (string * list WebSearchResult))
    : string :=
  fold_left (fun acc res => (acc ++ renderResult res)%string)
            validResults EmptyString.

Definition synthesisInstructions : string :=
  "INSTRUCTIONS: Synthesize a comprehensive answer to the user's original query using this search data. Cite sources using [1], [2] format. Do NOT repeat the <SEARCH> tags.".

(** Line 388. *)
Definition synthesisPrompt (queries : list string) (context : string)
    : string :=
  ("USER ORIGINALLY ASKED: " ++ prompt inp ++ nl ++ nl
     ++ "I have performed the following searches based on my previous thought process:"
     ++ nl ++ Js.join nl (map (fun q => "- " ++ q) queries) ++ nl ++ nl
     ++ "SEARCH CONTEXT:" ++ nl ++ context ++ nl ++ nl
     ++ synthesisInstructions)%string.

(** Lines 383-392: the state with which the loop is re-entered after a
    batch that brought pages. *)
Definition synthesize (queries : list string)
    (validResults : list (string * list WebSearchResult)) (st : LoopState)
    : LoopState :=
  let allNewMeta := flat_map (fun res => map toMeta (snd res)) validResults in
  let aggregatedContext := aggregate validResults in
  {| finalResponseText := finalResponseText st;
     metadataPayload := pushMetadata (metadataPayload st) allNewMeta;
     fallbackSearchContext := aggregatedContext;
     currentAction := SIMPLE;
     currentPrompt := synthesisPrompt queries aggregatedContext;
     loopCount := loopCount st;
     routingParameters := routingParameters st |}.

(** Lines 349-395: multi-search.  [Some st'] is the [continue]. *)
Definition multiSearch (tw : TurnWorld) (searchMatches : list string)
    (st : LoopState) : Trace * option LoopState :=
  match map Js.trim searchMatches with
  | [] => ([], None)
  | (q0 :: _) as queries =>
      if shouldUseExternalSearch w q0 (modelSupportsSearch cfg) true then
        let validResults := filter hasPages (parallelResults tw queries) in
        (map (fun q => EvSearch q 20) queries,
         match validResults with
         | [] => None
         | _ :: _ => Some (synthesize queries validResults st)
         end)
      else ([], None)
  end.

(** [currentAction = a; currentPrompt = p; continue] *)
Definition switchTo (a : RouterAction) (p : string) (st : LoopState)
    : LoopState :=
  {| finalResponseText := finalResponseText st;
     metadataPayload := metadataPayload st;
     fallbackSearchContext := fallbackSearchContext st;
     currentAction := a;
     currentPrompt := p;
     loopCount := loopCount st;
     routingParameters :=
       match a with IMAGE => Some p | _ => routingParameters st end |}.

Definition capture (m : option (string * string)) : option string :=
  match m with Some (body, _) => Some body | None => None end.

Definition deepMatch (g : string) : option string :=
  capture (Js.matchTag "<DEEP>" "</DEEP>" g).
Definition imageMatch (g : string) : option string :=
  capture (Js.matchTag "<IMAGE>" "</IMAGE>" g).
Definition projectMatch (g : string) : option string :=
  capture (Js.matchTag "<PROJECT>" "</PROJECT>" g).
Definition canvasMatch (g : string) : option string :=
  match capture (Js.matchTag "<CANVAS_TRIGGER>" "</CANVAS_TRIGGER>" g) with
  | Some c => Some c
  | None =>
      match capture (Js.matchTag "<CANVAS_TRIGGER>" "</CANVASTRIGGER>" g) with
      | Some c => Some c
      | None => capture (Js.matchTag "<CANVAS>" "</CANVAS>" g)
      end
  end.
Definition studyMatch (g : string) : option string :=
  capture (Js.matchTag "<STUDY>" "</STUDY>" g).

(** Lines 409-417: the chain of [if (...) { ...; continue; }]. *)
Definition tagTransition (searchMatches : list string) (g : string)
    (st : LoopState) : option LoopState :=
  match deepMatch g with
  | Some d => Some (switchTo DEEP_SEARCH d st)
  | None =>
  if (List.length searchMatches =? 1)%nat
     && negb (Js.truthy (fallbackSearchContext st))
  then Some (switchTo SEARCH (hd EmptyString searchMatches) st)
  else
  match imageMatch g with
  | Some i => Some (switchTo IMAGE i st)
  | None =>
  match projectMatch g with
  | Some p => Some (switchTo PROJECT p st)
  | None =>
  match canvasMatch g with
  | Some c => Some (switchTo CANVAS c st)
  | None =>
  match studyMatch g with
  | Some s => Some (switchTo STUDY s st)
  | None => None
  end end end end end.

Definition message (t : string) (meta : option (list GroundingChunk))
    : Message :=
  {| project_id := projectId inp; chat_id := chatId inp; sender := "ai";
     text := t; groundingMetadata := meta |}.

(** Lines 419-424. *)
Definition finalize (st : LoopState) : Trace * Message :=
  if negb (Js.truthy (Js.trim (finalResponseText st)))
     && Js.truthy (fallbackSearchContext st)
  then (emit inp (fallbackSearchContext st),
        message (fallbackSearchContext st) (metadataPayload st))
  else ([], message (finalResponseText st) (metadataPayload st)).

Definition searchMatchesOf (g : string) : list string :=
  Js.matchAll "<SEARCH>" "</SEARCH>" g.

(** How one turn of the loop body ends. *)
Inductive TurnResult :=
| Continue (st : LoopState)
| Return (m : Message) (how : StreamEnd) (generatedThisLoop : string)
| Throw (e : JsError) (accumulated : string)
| TurnOutOfFuel.

(** Lines 346-424: what follows the [for await] loop. *)
Definition postStream (tw : TurnWorld) (how : StreamEnd) (g : string)
    (st : LoopState) : Trace * TurnResult :=
  let searchMatches := searchMatchesOf g in
  let '(tr, multi) := multiSearch tw searchMatches st in
  match multi with
  | Some st' => (tr, Continue st')
  | None =>
      match tagTransition searchMatches g st with
      | Some st' => (tr, Continue st')
      | None => let '(tr', m) := finalize st in (tr ++ tr', Return m how g)
      end
  end.

(** Lines 258-424: the [case 'SIMPLE': default:] block. *)
Definition simpleCase (st : LoopState) : Trace * TurnResult :=
  let tw := turn w (loopCount st) in
  let '(tr1, r) :=
    generateContentStreamWithRetry (generateContentStream tw)
      (Some (effectiveModel cfg)) (currentPrompt st) 3%Z (Some (emit inp)) in
  match r with
  | Returned items =>
      let '(tr2, (how, g, st1)) := consumeStream items EmptyString st in
      match how with
      | StreamThrew e => (tr1 ++ tr2, Throw e (finalResponseText st1))
      | _ =>
          let '(tr3, r') := postStream tw how g st1 in
          (tr1 ++ tr2 ++ tr3, r')
      end
  | Rethrown e => (tr1, Throw e (finalResponseText st))
  | ThrownAfterLoop =>
      (tr1, Throw (newError "Max retries exceeded") (finalResponseText st))
  | RetryOutOfFuel => (tr1, TurnOutOfFuel)
  end.

(** [switch (currentAction)]: the only case is ['SIMPLE'], shared with
    [default]. *)
Definition turnBody (st : LoopState) : Trace * TurnResult :=
  match currentAction st with
  | SIMPLE => simpleCase st
  | _ => simpleCase st
  end.

(** [loopCount++] *)
Definition bump (st : LoopState) : LoopState :=
  {| finalResponseText := finalResponseText st;
     metadataPayload := metadataPayload st;
     fallbackSearchContext := fallbackSearchContext st;
     currentAction := currentAction st;
     currentPrompt := currentPrompt st;
     loopCount := S (loopCount st);
     routingParameters := routingParameters st |}.

(** How the [while] loop is left. *)
Inductive LoopExit :=
| LoopBound (st : LoopState)        (* [loopCount < MAX_LOOPS] is false *)
| LoopAborted (st : LoopState)      (* [if (signal?.aborted) break] *)
| LoopReturned (m : Message) (how : StreamEnd) (generatedThisLoop : string)
| LoopThrew (e : JsError) (accumulated : string)
| LoopOutOfFuel.

(** Lines 247-427: [while (loopCount < MAX_LOOPS)]. *)
Fixpoint dispatchLoop (fuel : nat) (st : LoopState) : Trace * LoopExit :=
  match fuel with
  | O => ([], LoopOutOfFuel)
  | S fuel' =>
      if (loopCount st <? MAX_LOOPS)%nat then
        if signalAborted (turn w (S (loopCount st))) then ([], LoopAborted st)
        else
          let st1 := bump st in
          let ev := EvTurn (loopCount st1) (currentAction st1)
                           (currentPrompt st1) in
          let '(tr, r) := turnBody st1 in
          match r with
          | Continue st2 =>
              let '(tr', x) := dispatchLoop fuel' st2 in
              (ev :: tr ++ tr', x)
          | Return m how g => (ev :: tr, LoopReturned m how g)
          | Throw e acc => (ev :: tr, LoopThrew e acc)
          | TurnOutOfFuel => (ev :: tr, LoopOutOfFuel)
          end
      else ([], LoopBound st)
  end.

End Turn.

(** The promise [runAutonomousAgent] returns. *)
Inductive AgentResult :=
| Resolved (m : Message)
| Rejected (e : JsError)
| NoResult.                          (* the model ran out of fuel *)

(** The place where the call was left. *)
Inductive Exit :=
| ExitInstant                        (* lines 94-144 *)
| ExitBound                          (* line 429, the bound was reached *)
| ExitAbortedAtTop                   (* line 429, after [break] at line 248 *)
| ExitFinalized (how : StreamEnd) (generatedThisLoop : string) (* line 424 *)
| ExitCaught (e : JsError)           (* lines 431-438 *)
| ExitOutOfFuel.

Record Run := {
  result : AgentResult;
  trace : Trace;
  exit : Exit
}.

Section Agent.

Variable inp : AgentInput.
Variable w : World.

(** Lines 94-144, as far as the outcome goes: the text of the free
    completion, or a fresh error whatever was thrown. *)
Definition instantMode : Run :=
  match generateFreeCompletion w with
  | inr finalResponseText =>
      {| result := Resolved (message inp finalResponseText None);
         trace := []; exit := ExitInstant |}
  | inl _ =>
      {| result := Rejected (newError "Instant mode service unavailable.");
         trace := []; exit := ExitInstant |}
  end.

(** Lines 191-219: the search made before the loop; the value is
    [externalMetadata]. *)
Definition initialExternalSearch (cfg : Setup) : Trace * list GroundingChunk :=
  if shouldUseExternalSearch w (prompt inp) (modelSupportsSearch cfg) false
  then
    (emit inp ("<SEARCH>" ++ prompt inp ++ "</SEARCH>")%string
       ++ [EvSearch (prompt inp) 15],
     match initialSearch w with
     | Some ((_ :: _) as searchResults) =>
         match initialFetch w searchResults with
         | Some pages => map toMeta pages
         | None => []
         end
     | _ => []
     end)
  else ([], []).

(** Lines 239-244. *)
Definition initialState (action : RouterAction)
    (externalMetadata : list GroundingChunk) : LoopState :=
  {| finalResponseText := EmptyString;
     metadataPayload :=
       match externalMetadata with [] => None | _ :: _ => Some externalMetadata end;
     fallbackSearchContext := EmptyString;
     currentAction := action;
     currentPrompt := prompt inp;
     loopCount := 0;
     routingParameters := None |}.

(** Lines 168-429: the [try] block. *)
Definition tryBlock (fuel : nat) (cfg : Setup) : Trace * LoopExit :=
  match route w with
  | inl e => ([EvRoute], LoopThrew e EmptyString)
  | inr action =>
      let '(tr1, externalMetadata) := initialExternalSearch cfg in
      match getContext w with
      | Some e => (EvRoute :: tr1, LoopThrew e EmptyString)
      | None =>
          let '(tr2, x) :=
            dispatchLoop inp w cfg fuel (initialState action externalMetadata) in
          (EvRoute :: tr1 ++ tr2, x)
      end
  end.

(** Lines 431-438: the [catch] clause. *)
Definition catchClause (error : JsError) (finalResponseText : string)
    : Message :=
  if (errName error =? "AbortError")%string
  then message inp (Js.orElse finalResponseText stoppedByUser) None
  else
    let errorMessage :=
      match errMessage error with
      | Some m => if Js.truthy m && Js.includes "OpenRouter" m then m
                  else getUserFriendlyError w error
      | None => getUserFriendlyError w error
      end in
    message inp ("An error occurred: " ++ errorMessage)%string None.

Definition runAutonomousAgentFuel (fuel : nat) : Run :=
  match thinkingMode inp with
  | Instant => instantMode
  | _ =>
      let '(tr0, cfg) := setup inp in
      let '(tr, x) := tryBlock fuel cfg in
      match x with
      | LoopBound st =>
          {| result := Resolved (message inp (finalResponseText st)
                                         (metadataPayload st));
             trace := tr0 ++ tr; exit := ExitBound |}
      | LoopAborted st =>
          {| result := Resolved (message inp (finalResponseText st)
                                         (metadataPayload st));
             trace := tr0 ++ tr; exit := ExitAbortedAtTop |}
      | LoopReturned m how g =>
          {| result := Resolved m; trace := tr0 ++ tr;
             exit := ExitFinalized how g |}
      | LoopThrew e acc =>
          {| result := Resolved (catchClause e acc); trace := tr0 ++ tr;
             exit := ExitCaught e |}
      | LoopOutOfFuel =>
          {| result := NoResult; trace := tr0 ++ tr; exit := ExitOutOfFuel |}
      end
  end.

Definition runAutonomousAgent : Run := runAutonomousAgentFuel (S MAX_LOOPS).

End Agent.

(* ===================================================================== *)
(** ** Observations on traces *)
(* ===================================================================== *)

Definition isTurn (e : Event) : bool :=
  match e with EvTurn _ _ _ => true | _ => false end.

Definition isGenerate (e : Event) : bool :=
  match e with EvGenerate _ _ _ => true | _ => false end.

(** The number of turns of the dispatch loop a trace records. *)
Definition turns (tr : Trace) : nat := List.length (filter isTurn tr).

(** The number of provider requests a trace records. *)
Definition requests (tr : Trace) : nat := List.length (filter isGenerate tr).

(** The sleeps of a trace, in order. *)
Fixpoint sleeps (tr : Trace) : list Z :=
  match tr with
  | [] => []
  | EvSleep ms :: rest => ms :: sleeps rest
  | _ :: rest => sleeps rest
  end.

(** The response text a trace has accumulated. *)
Fixpoint accumulated (tr : Trace) : string :=
  match tr with
  | [] => EmptyString
  | EvAppend s :: rest => (s ++ accumulated rest)%string
  | _ :: rest => accumulated rest
  end.

(** How often the callback was handed the notice [s]. *)
Fixpoint noticed (s : string) (tr : Trace) : nat :=
  match tr with
  | [] => 0
  | EvNotice s' :: rest =>
      if (s' =? s)%string then S (noticed s rest) else noticed s rest
  | _ :: rest => noticed s rest
  end.

(** The models of the provider requests of a trace. *)
Fixpoint requestedModels (tr : Trace) : list string :=
  match tr with
  | [] => []
  | EvGenerate m _ _ :: rest => m :: requestedModels rest
  | _ :: rest => requestedModels rest
  end.

(* ===================================================================== *)
(** ** Vocabulary of the statements *)
(* ===================================================================== *)

(** The attempt failed with a rate-limit error. *)
Definition rateLimited {A : Type} (o : JsError + A) : bool :=
  match o with inl e => isQuotaError e | inr _ => false end.

(** What the wrapper hands back when it stops at an attempt. *)
Definition outcome {A : Type} (o : JsError + A) : RetryResult A :=
  match o with inl e => Rethrown e | inr stream => Returned stream end.

(** The trace of [n] retried attempts, the first of them being attempt
    [from]: the request, the notice, then a sleep of
    2^attempt * 2000 + 1000 milliseconds. *)
Fixpoint retriedRounds (paramsModel : option string) (paramsPrompt : string)
    (onRetry : option (string -> Trace)) (n : nat) (from : Z) : Trace :=
  match n with
  | O => []
  | S n' =>
      request paramsModel paramsPrompt from
        :: notify onRetry (retryNotice (2 ^ from * 2000 + 1000)%Z)
        ++ EvSleep (2 ^ from * 2000 + 1000)%Z
        :: retriedRounds paramsModel paramsPrompt onRetry n' (from + 1)%Z
  end.

(** A provider that answers 429 twice and then streams. *)
Definition tooManyRequests : JsError :=
  mkError "ApiError" (Some 429%Z) (Some "Too Many Requests").


(** A provider that always answers 429. *)
Definition alwaysLimited (attempt : Z) : JsError + list StreamItem :=
  inl tooManyRequests.

(** A complete control tag is present: one of the patterns of lines
    347-407 matches. *)
Definition hasControlTag (g : string) : bool :=
  match searchMatchesOf g with [] => false | _ :: _ => true end
  || match deepMatch g with Some _ => true | None => false end
  || match imageMatch g with Some _ => true | None => false end
  || match projectMatch g with Some _ => true | None => false end
  || match canvasMatch g with Some _ => true | None => false end
  || match studyMatch g with Some _ => true | None => false end.



(** A search context is only ever present together with visible response
    text. *)
Definition contextBacked (st : LoopState) : Prop :=
  Js.truthy (fallbackSearchContext st) = true ->
  Js.truthy (Js.trim (finalResponseText st)) = true.

(** A trace without turns, appended text or provider requests. *)
Definition quiet (tr : Trace) : Prop :=
  turns tr = 0 /\ accumulated tr = EmptyString /\ requestedModels tr = [].

(** The string has a character that [trim] keeps. *)
Fixpoint hasInk (s : string) : bool :=
  match s with
  | EmptyString => false
  | String c s' => negb (Js.isSpace c) || hasInk s'
  end.

(** No pattern of lines 398-407 matches: only SEARCH tags can be left. *)
Definition noSwitchTag (g : string) : Prop :=
  deepMatch g = None /\ imageMatch g = None /\ projectMatch g = None /\
  canvasMatch g = None /\ studyMatch g = None.

(** *** Sample inputs and worlds *)


Definition serverError : JsError :=
  mkError "ApiError" (Some 500%Z) (Some "Internal error").

Definition textChunk (s : string) : StreamItem :=
  Yield false {| chunkText := Some s; groundingChunks := None |}.

Definition samplePage (t : string) : WebSearchResult :=
  {| title := t; url := ("https://example.org/" ++ t)%string;
     content := Some ("about " ++ t)%string; snippet := None |}.

(** A turn in which the signal is quiet and the provider answers every
    attempt the same way. *)
Definition sampleTurn (answer : JsError + list StreamItem)
    (search : string -> option (list WebSearchResult)) : TurnWorld :=
  {| signalAborted := false;
     generateContentStream := fun _ => answer;
     runMcpWebSearch := fun _ q => search q;
     fetchContentsForResults := fun _ results => Some results |}.

(** A world whose router answers SIMPLE and whose search heuristic accepts
    explicit tags exactly when [gate] is set. *)
Definition sampleWorld (gate : bool) (turns : nat -> TurnWorld) : World :=
  {| generateFreeCompletion := inr "instant answer";
     route := inr SIMPLE;
     shouldUseExternalSearch := fun _ _ explicit => gate && explicit;
     initialSearch := None;
     initialFetch := fun results => Some results;
     getContext := None;
     getUserFriendlyError := fun _ => "Something went wrong.";
     turn := turns |}.

Definition sampleInput (m : string) (mode : ThinkingMode) : AgentInput :=
  {| prompt := "hi"; model := Some m; thinkingMode := mode;
     profile := None; onStreamChunk := true;
     projectId := "p1"; chatId := "c1" |}.

(** *** The claims as the specification words them *)

(** Cancellation was observed: at the top of a turn, inside the stream
    loop, or as a thrown AbortError. *)
Definition cancelled (x : Exit) : Prop :=
  x = ExitAbortedAtTop \/
  (exists g, x = ExitFinalized AbortBreak g) \/
  (exists e, x = ExitCaught e /\ errName e = "AbortError").



(** The three ways to end of the specification's invariant. *)
Definition endsInThreeWays (r : Run) : Prop :=
  exit r = ExitBound \/
  cancelled (exit r) \/
  (exists how g, exit r = ExitFinalized how g /\ hasControlTag g = false).

(** A model that answers every turn with a DEEP tag. *)
Definition deepForever : World :=
  sampleWorld true
    (fun _ => sampleTurn (inr [textChunk "<DEEP>dig deeper</DEEP>"])
                         (fun _ => None)).



(** The provider fails with a server error. *)
Definition providerDown : World :=
  sampleWorld true (fun _ => sampleTurn (inl serverError) (fun _ => None)).

(** Two SEARCH tags while the search heuristic declines explicit tags. *)
Definition searchDeclined : World :=
  sampleWorld false
    (fun _ => sampleTurn
                (inr [textChunk "<SEARCH>a</SEARCH><SEARCH>b</SEARCH>"])
                (fun _ => None)).

(** A plain answer in two chunks. *)
Definition plainAnswer : World :=
  sampleWorld true
    (fun _ => sampleTurn (inr [textChunk "Hello, "; textChunk "world."])
                         (fun _ => None)).

(** *** The precedence of the specification *)

(** The transition rules of step 5 of the turn loop. *)
Inductive Rule :=
| MultiSearch | DeepTag | SingleSearch | ImageTag | ProjectTag | CanvasTag
| StudyTag.



(** Whether a rule matches the text [g] generated in a turn, and the state
    the loop is re-entered with if it does.  The batch matches when the
    queries were run and one of them brought pages; the single SEARCH tag
    matches when it is the only one and no batch has left a search context
    behind. *)
Definition ruleMatch (inp : AgentInput) (w : World) (cfg : Setup)
    (tw : TurnWorld) (g : string) (st : LoopState) (r : Rule)
    : option LoopState :=
  match r with
  | MultiSearch =>
      match map Js.trim (searchMatchesOf g) with
      | [] => None
      | (q0 :: _) as queries =>
          if shouldUseExternalSearch w q0 (modelSupportsSearch cfg) true
             && existsb hasPages (parallelResults tw queries)
          then Some (synthesize inp queries
                       (filter hasPages (parallelResults tw queries)) st)
          else None
      end
  | DeepTag => option_map (fun d => switchTo DEEP_SEARCH d st) (deepMatch g)
  | SingleSearch =>
      match searchMatchesOf g with
      | [q] => if Js.truthy (fallbackSearchContext st) then None
               else Some (switchTo SEARCH q st)
      | _ => None
      end
  | ImageTag => option_map (fun i => switchTo IMAGE i st) (imageMatch g)
  | ProjectTag => option_map (fun p => switchTo PROJECT p st) (projectMatch g)
  | CanvasTag => option_map (fun c => switchTo CANVAS c st) (canvasMatch g)
  | StudyTag => option_map (fun s => switchTo STUDY s st) (studyMatch g)
  end.



Definition sampleSetup : Setup :=
  {| effectiveModel := "gemini-2.5-flash"; isNative := true;
     modelSupportsSearch := true; thinkingBudget := 0%Z |}.

(** A turn in which the search for "b" fails and every other one brings a
    page. *)
Definition searchLosesB : TurnWorld :=
  sampleTurn (inr [])
    (fun q => if (q =? "b")%string then None else Some [samplePage q]).

(** A turn in which every search brings a page. *)
Definition searchFindsAll : TurnWorld :=
  sampleTurn (inr []) (fun q => Some [samplePage q]).


(** A turn in which every search fails. *)
Definition searchFindsNothing : TurnWorld :=
  sampleTurn (inr []) (fun _ => None).

(** The SEARCH tags of a turn are treated as unmatched: what follows the
    stream is what the rules decide when no SEARCH tag is counted, and
    finalization when none of them applies. *)
Definition searchTagsUnmatched (inp : AgentInput) (w : World) (cfg : Setup)
    (tw : TurnWorld) (how : StreamEnd) (g : string) (st : LoopState) : Prop :=
  snd (postStream inp w cfg tw how g st)
  = match tagTransition [] g st with
    | Some st' => Continue st'
    | None => Return (snd (finalize inp st)) how g
    end.

(* ===================================================================== *)
(** * Properties *)
(* ===================================================================== *)

(** ** Strings *)

Lemma append_assoc (a b c : string) :
  ((a ++ b) ++ c = a ++ (b ++ c))%string.
Proof. induction a as [|x a IH]; simpl; [reflexivity | now rewrite IH]. Qed.

Lemma append_nil_r (a : string) : (a ++ "" = a)%string.
Proof. induction a as [|x a IH]; simpl; [reflexivity | now rewrite IH]. Qed.

Lemma prefix_split (p s : string) :
  String.prefix p s = true ->
  s = (p ++ Js.drop (String.length p) s)%string.
Proof.
  revert s; induction p as [|x p IH]; intros s H; simpl.
  - now destruct s.
  - destruct s as [|y s]; simpl in H; [discriminate|].
    destruct (ascii_dec x y) as [->|]; [|discriminate].
    simpl. f_equal. now apply IH.
Qed.

Lemma prefix_append (p a : string) : String.prefix p (p ++ a) = true.
Proof.
  induction p as [|x p IH]; simpl.
  - now destruct a.
  - destruct (ascii_dec x x); [exact IH | congruence].
Qed.

Lemma splitFirst_sound (p s b a : string) :
  Js.splitFirst p s = Some (b, a) -> s = (b ++ p ++ a)%string.
Proof.
  revert b a; induction s as [|c s IH]; intros b a H.
  - destruct p; simpl in H; [|discriminate].
    now inversion H.
  - cbn [Js.splitFirst] in H. destruct (String.prefix p (String c s)) eqn:E.
    + inversion H; subst. simpl. now apply prefix_split.
    + destruct (Js.splitFirst p s) as [[b' a']|] eqn:F; [|discriminate].
      inversion H; subst. simpl. f_equal. now apply IH.
Qed.

Lemma splitFirst_complete (p b a : string) :
  Js.splitFirst p (b ++ p ++ a) <> None.
Proof.
  induction b as [|c b IH]; cbn [append].
  - pose proof (prefix_append p a) as E.
    remember (p ++ a)%string as s eqn:Hs.
    destruct s; cbn [Js.splitFirst]; rewrite E; congruence.
  - cbn [Js.splitFirst].
    destruct (String.prefix p (String c (b ++ p ++ a))); [congruence|].
    destruct (Js.splitFirst p (b ++ p ++ a)) as [[? ?]|]; congruence.
Qed.

Lemma includes_iff (p s : string) :
  Js.includes p s = true <-> exists b a, s = (b ++ p ++ a)%string.
Proof.
  unfold Js.includes; split.
  - destruct (Js.splitFirst p s) as [[b a]|] eqn:E; [|discriminate].
    intros _. exists b, a. now apply splitFirst_sound.
  - intros (b & a & ->).
    pose proof (splitFirst_complete p b a).
    destruct (Js.splitFirst p (b ++ p ++ a)); congruence.
Qed.

Lemma includes_app_l (p s r : string) :
  Js.includes p s = true -> Js.includes p (s ++ r) = true.
Proof.
  rewrite !includes_iff. intros (b & a & ->).
  exists b, (a ++ r)%string. now rewrite !append_assoc.
Qed.

Lemma includes_app_r (p s r : string) :
  Js.includes p s = true -> Js.includes p (r ++ s) = true.
Proof.
  rewrite !includes_iff. intros (b & a & ->).
  exists (r ++ b)%string, a. now rewrite !append_assoc.
Qed.

Lemma includes_self_app (p a b : string) :
  Js.includes p (a ++ p ++ b) = true.
Proof. apply includes_iff. now exists a, b. Qed.

Lemma matchTag_closing (open close s body rest : string) :
  Js.matchTag open close s = Some (body, rest) ->
  Js.includes close s = true.
Proof.
  unfold Js.matchTag.
  destruct (Js.splitFirst open s) as [[b a]|] eqn:E; [|discriminate].
  destruct (Js.splitFirst close a) as [[b' a']|] eqn:F; [|discriminate].
  intros _. apply splitFirst_sound in E, F. subst s a.
  apply includes_iff. exists (b ++ open ++ b')%string, a'.
  now rewrite !append_assoc.
Qed.

Lemma matchAll_closing (open close s : string) :
  Js.matchAll open close s <> [] -> Js.includes close s = true.
Proof.
  unfold Js.matchAll. simpl.
  destruct (Js.matchTag open close s) as [[body rest]|] eqn:E; [|congruence].
  intros _. eapply matchTag_closing; eauto.
Qed.

(** ** The retry wrapper *)

Section RetryFacts.

Context {A : Type}.
Variable provider : Z -> JsError + A.
Variable paramsModel : option string.
Variable paramsPrompt : string.
Variable retries : Z.
Variable onRetry : option (string -> Trace).

Let attemptsFrom := retryFrom provider paramsModel paramsPrompt retries onRetry.
Let rounds := retriedRounds paramsModel paramsPrompt onRetry.

(** [n] rate-limited attempts below the last one are all retried. *)
Lemma retryFrom_rounds (n : nat) : forall (fuel : nat) (attempt : Z),
  (forall i, (i < n)%nat ->
     rateLimited (provider (attempt + Z.of_nat i)) = true) ->
  (attempt + Z.of_nat n <= retries)%Z ->
  attemptsFrom (n + fuel)%nat attempt =
  (rounds n attempt ++ fst (attemptsFrom fuel (attempt + Z.of_nat n)%Z),
   snd (attemptsFrom fuel (attempt + Z.of_nat n)%Z)).
Proof.
  induction n as [|n IH]; intros fuel attempt Hrl Hle.
  - simpl. rewrite Z.add_0_r. now destruct (attemptsFrom fuel attempt).
  - pose proof (Hrl 0%nat ltac:(lia)) as H0. rewrite Z.add_0_r in H0.
    assert (Hrec : attemptsFrom (n + fuel)%nat (attempt + 1)%Z =
      (rounds n (attempt + 1)%Z
         ++ fst (attemptsFrom fuel (attempt + Z.of_nat (S n))%Z),
       snd (attemptsFrom fuel (attempt + Z.of_nat (S n))%Z))).
    { replace (attempt + Z.of_nat (S n))%Z
        with (attempt + 1 + Z.of_nat n)%Z by lia.
      apply IH; [|lia].
      intros i Hi. replace (attempt + 1 + Z.of_nat i)%Z
        with (attempt + Z.of_nat (S i))%Z by lia.
      apply Hrl. lia. }
    change (S n + fuel)%nat with (S (n + fuel)).
    unfold attemptsFrom in *. cbn [retryFrom].
    destruct (attempt <=? retries)%Z eqn:E1; [|lia].
    unfold rateLimited in H0.
    destruct (provider attempt) as [e|s]; [|discriminate].
    rewrite H0. destruct (attempt <? retries)%Z eqn:E2; [|lia].
    cbn [andb]. rewrite Hrec. unfold rounds, retryDelay. cbn [retriedRounds].
    cbn [fst snd]. f_equal. cbn [app]. f_equal.
    rewrite <- app_assoc. reflexivity.
Qed.

(** An attempt that is not retried ends the wrapper. *)
Lemma retryFrom_stop (fuel : nat) (attempt : Z) :
  (attempt <= retries)%Z ->
  (rateLimited (provider attempt) = true -> attempt = retries) ->
  attemptsFrom (S fuel) attempt =
  ([request paramsModel paramsPrompt attempt], outcome (provider attempt)).
Proof.
  intros Hle Hlast. unfold attemptsFrom. cbn [retryFrom].
  destruct (attempt <=? retries)%Z eqn:E1; [|lia].
  unfold rateLimited in Hlast.
  destruct (provider attempt) as [e|s]; [|reflexivity].
  destruct (isQuotaError e) eqn:Q; cbn [andb]; [|reflexivity].
  rewrite (Hlast eq_refl), Z.ltb_irrefl. reflexivity.
Qed.

(** Either every attempt below [n] is rate-limited, or there is a first one
    that is not. *)
Lemma first_unretried (n : nat) :
  (forall i, (i < n)%nat -> rateLimited (provider (Z.of_nat i)) = true) \/
  (exists k, (k < n)%nat /\
     (forall i, (i < k)%nat -> rateLimited (provider (Z.of_nat i)) = true) /\
     rateLimited (provider (Z.of_nat k)) = false).
Proof.
  induction n as [|n [IH|(k & Hk & Hb & Hs)]].
  - left. intros i Hi. lia.
  - destruct (rateLimited (provider (Z.of_nat n))) eqn:E.
    + left. intros i Hi.
      destruct (Nat.eq_dec i n) as [->|]; [exact E | apply IH; lia].
    + right. exists n. repeat split; [lia | | exact E].
      intros i Hi. now apply IH.
  - right. exists k. repeat split; [lia | exact Hb | exact Hs].
Qed.

(** After [k] retried attempts the wrapper stops at attempt [k] when that
    one is not rate-limited, or is the last. *)
Lemma retry_stops_at (k : nat) :
  (Z.of_nat k <= retries)%Z ->
  (forall i, (i < k)%nat -> rateLimited (provider (Z.of_nat i)) = true) ->
  (rateLimited (provider (Z.of_nat k)) = true -> Z.of_nat k = retries) ->
  generateContentStreamWithRetry provider paramsModel paramsPrompt
                                 retries onRetry =
  (rounds k 0%Z ++ [request paramsModel paramsPrompt (Z.of_nat k)],
   outcome (provider (Z.of_nat k))).
Proof.
  intros Hle Hb Hlast.
  unfold generateContentStreamWithRetry, retryFuel.
  replace (S (Z.to_nat (retries + 1)))
    with (k + S (Z.to_nat (retries + 1) - k))%nat by lia.
  fold attemptsFrom. rewrite retryFrom_rounds; [|exact Hb | lia].
  rewrite Z.add_0_l, retryFrom_stop by assumption.
  reflexivity.
Qed.

(** The wrapper, characterised: it stops at the first attempt [k] that is
    not rate-limited, or at attempt [retries]. *)
Lemma retry_characterization :
  (0 <= retries)%Z ->
  exists k : nat,
    (Z.of_nat k <= retries)%Z /\
    (forall i, (i < k)%nat -> rateLimited (provider (Z.of_nat i)) = true) /\
    (rateLimited (provider (Z.of_nat k)) = true -> Z.of_nat k = retries) /\
    generateContentStreamWithRetry provider paramsModel paramsPrompt
                                   retries onRetry =
    (rounds k 0%Z ++ [request paramsModel paramsPrompt (Z.of_nat k)],
     outcome (provider (Z.of_nat k))).
Proof.
  intros Hpos.
  assert (Hk : exists k : nat,
    (Z.of_nat k <= retries)%Z /\
    (forall i, (i < k)%nat -> rateLimited (provider (Z.of_nat i)) = true) /\
    (rateLimited (provider (Z.of_nat k)) = true -> Z.of_nat k = retries)).
  { destruct (first_unretried (Z.to_nat retries)) as [Hall|(k & Hk & Hb & Hs)].
    - exists (Z.to_nat retries). repeat split; [lia | exact Hall | lia].
    - exists k. repeat split; [lia | exact Hb | congruence]. }
  destruct Hk as (k & Hle & Hb & Hlast). exists k.
  repeat split; try assumption.
  now apply retry_stops_at.
Qed.

(** With a non-negative retry count the wrapper returns or rethrows; it
    never reaches the statement after the loop. *)
Lemma retry_result_cases :
  (0 <= retries)%Z ->
  (exists stream,
     snd (generateContentStreamWithRetry provider paramsModel paramsPrompt
            retries onRetry) = Returned stream) \/
  (exists e,
     snd (generateContentStreamWithRetry provider paramsModel paramsPrompt
            retries onRetry) = Rethrown e).
Proof.
  intros Hpos.
  destruct (retry_characterization Hpos) as (k & _ & _ & _ & ->).
  cbn [snd]. destruct (provider (Z.of_nat k)) as [e|stream]; cbn [outcome].
  - right. now exists e.
  - left. now exists stream.
Qed.

End RetryFacts.





(** C10.  With a retry count [retries >= 0]: the wrapper never reaches the
    [throw new Error("Max retries exceeded")] that follows the loop (nor
    does the model run out of fuel), and when every attempt from 0 to
    [retries] fails with a rate-limit error, what the caller gets is the
    rate-limit error of the last attempt, rethrown by the catch clause
    after [retries] retried rounds. *)
Theorem retry_exhaustion {A : Type} (provider : Z -> JsError + A)
    (paramsModel : option string) (paramsPrompt : string) (retries : Z)
    (onRetry : option (string -> Trace)) :
  (0 <= retries)%Z ->
  snd (generateContentStreamWithRetry provider paramsModel paramsPrompt
         retries onRetry) <> ThrownAfterLoop /\
  snd (generateContentStreamWithRetry provider paramsModel paramsPrompt
         retries onRetry) <> RetryOutOfFuel /\
  ((forall a : Z, (0 <= a <= retries)%Z -> rateLimited (provider a) = true) ->
   exists e,
     provider retries = inl e /\ isQuotaError e = true /\
     generateContentStreamWithRetry provider paramsModel paramsPrompt
                                    retries onRetry =
     (retriedRounds paramsModel paramsPrompt onRetry (Z.to_nat retries) 0%Z
        ++ [request paramsModel paramsPrompt retries],
      Rethrown e)).
Proof.
  intros Hpos.
  destruct (retry_result_cases provider paramsModel paramsPrompt retries
              onRetry Hpos) as [(s & Hs)|(e & He)].
  all: repeat split; try (rewrite ?Hs, ?He; discriminate).
  all: intros Hall.
  all: pose proof (Hall retries ltac:(lia)) as Hlast.
  all: unfold rateLimited in Hlast.
  all: destruct (provider retries) as [e'|s'] eqn:Ep; [|discriminate].
  all: exists e'; repeat split; try assumption.
  all: rewrite (retry_stops_at provider paramsModel paramsPrompt retries
                  onRetry (Z.to_nat retries)); try lia.
  all: rewrite ?Z2Nat.id by lia; try (rewrite Ep; reflexivity).
  all: intros i Hi; apply Hall; lia.
Qed.

Lemma retry_exhaustion_witness :
  ((0 <= 3)%Z /\
   (forall a : Z, (0 <= a <= 3)%Z -> rateLimited (alwaysLimited a) = true)) /\
  (snd (generateContentStreamWithRetry alwaysLimited None "hi" 3%Z None)
     <> ThrownAfterLoop /\
   snd (generateContentStreamWithRetry alwaysLimited None "hi" 3%Z None)
     <> RetryOutOfFuel /\
   exists e,
     alwaysLimited 3%Z = inl e /\ isQuotaError e = true /\
     generateContentStreamWithRetry alwaysLimited None "hi" 3%Z None =
     (retriedRounds None "hi" None (Z.to_nat 3) 0%Z
        ++ [request None "hi" 3%Z],
      Rethrown e)).
Proof.
  assert (Hall : forall a : Z, (0 <= a <= 3)%Z ->
                   rateLimited (alwaysLimited a) = true)
    by (intros a Ha; reflexivity).
  split; [split; [lia | exact Hall]|].
  destruct (retry_exhaustion alwaysLimited None "hi" 3%Z None ltac:(lia))
    as (H1 & H2 & H3).
  exact (conj H1 (conj H2 (H3 Hall))).
Defined.

(** Below zero the loop body never runs and the statement after the loop is
    reached. *)
Example negative_retry_count :
  generateContentStreamWithRetry alwaysLimited None "hi" (-1)%Z None
  = ([], ThrownAfterLoop).
Proof. reflexivity. Qed.

Example notices_count_seconds :
  fst (generateContentStreamWithRetry alwaysLimited None "hi" 3%Z
         (Some (fun m => [EvNotice m])))
  = [EvGenerate "gemini-2.5-flash" "hi" 0;
     EvNotice "(Rate limit hit. Retrying in 3s...)"; EvSleep 3000;
     EvGenerate "gemini-2.5-flash" "hi" 1;
     EvNotice "(Rate limit hit. Retrying in 5s...)"; EvSleep 5000;
     EvGenerate "gemini-2.5-flash" "hi" 2;
     EvNotice "(Rate limit hit. Retrying in 9s...)"; EvSleep 9000;
     EvGenerate "gemini-2.5-flash" "hi" 3].
Proof. reflexivity. Qed.

Lemma length_append (a b : string) :
  String.length (a ++ b) = String.length a + String.length b.
Proof. induction a as [|x a IH]; cbn; [reflexivity | now rewrite IH]. Qed.

Lemma matchTag_shorter (open close s body rest : string) :
  Js.matchTag open close s = Some (body, rest) ->
  String.length rest + String.length open <= String.length s.
Proof.
  unfold Js.matchTag.
  destruct (Js.splitFirst open s) as [[b a]|] eqn:E; [|discriminate].
  destruct (Js.splitFirst close a) as [[b' a']|] eqn:F; [|discriminate].
  intros H. injection H as <- <-.
  apply splitFirst_sound in E, F. subst s a.
  rewrite !length_append. lia.
Qed.

(** The fuel of [matchAll] is never used up: any larger amount gives the
    same matches. *)
Lemma matchAllFuel_enough (open close : string) :
  open <> EmptyString ->
  forall f1 f2 s,
  String.length s < f1 -> String.length s < f2 ->
  Js.matchAllFuel f1 open close s = Js.matchAllFuel f2 open close s.
Proof.
  intros Hopen.
  assert (Hpos : 0 < String.length open) by (destruct open; cbn; [congruence | lia]).
  induction f1 as [|f1 IH]; intros f2 s H1 H2; [lia|].
  destruct f2 as [|f2]; [lia|]. cbn [Js.matchAllFuel].
  destruct (Js.matchTag open close s) as [[body rest]|] eqn:E; [|reflexivity].
  apply matchTag_shorter in E. f_equal. apply IH; lia.
Qed.

Example matchAll_two_tags :
  Js.matchAll "<SEARCH>" "</SEARCH>"
              "a<SEARCH> q1 </SEARCH>b<SEARCH>q2</SEARCH>c<SEARCH>"
  = [" q1 "; "q2"].
Proof. reflexivity. Qed.

Example matchTag_is_lazy :
  Js.matchTag "<DEEP>" "</DEEP>" "x<DEEP>a</DEEP>b</DEEP>" = Some ("a", "b</DEEP>").
Proof. reflexivity. Qed.

Example trim_both_ends : Js.trim (" " ++ nl ++ "a b " ++ nl) = "a b".
Proof. reflexivity. Qed.

(** *** Tags survive when text is appended *)










(** ** Traces *)

Lemma turns_app (a b : Trace) : turns (a ++ b) = turns a + turns b.
Proof. unfold turns. now rewrite filter_app, length_app. Qed.

Lemma accumulated_app (a b : Trace) :
  accumulated (a ++ b) = (accumulated a ++ accumulated b)%string.
Proof.
  induction a as [|e a IH]; [reflexivity|].
  destruct e; simpl; rewrite IH; try reflexivity.
  now rewrite append_assoc.
Qed.

Lemma noticed_app (s : string) (a b : Trace) :
  noticed s (a ++ b) = noticed s a + noticed s b.
Proof.
  induction a as [|e a IH]; [reflexivity|].
  destruct e; simpl; rewrite ?IH; try reflexivity.
  destruct (s0 =? s)%string; simpl; now rewrite ?IH.
Qed.

Lemma requestedModels_app (a b : Trace) :
  requestedModels (a ++ b) = requestedModels a ++ requestedModels b.
Proof.
  induction a as [|e a IH]; [reflexivity|].
  destruct e; simpl; now rewrite ?IH.
Qed.

Lemma requests_app (a b : Trace) : requests (a ++ b) = requests a + requests b.
Proof. unfold requests. now rewrite filter_app, length_app. Qed.

Lemma quiet_nil : quiet [].
Proof. now repeat split. Qed.

Lemma quiet_forward (inp : AgentInput) (s : string) : quiet (forward inp s).
Proof. unfold forward. destruct (onStreamChunk inp); now repeat split. Qed.

Lemma quiet_emit (inp : AgentInput) (s : string) : quiet (emit inp s).
Proof. unfold emit. destruct (onStreamChunk inp); now repeat split. Qed.

Lemma quiet_searches (qs : list string) (n : nat) :
  quiet (map (fun q => EvSearch q n) qs).
Proof. induction qs as [|q qs (H1 & H2 & H3)]; now repeat split. Qed.

Lemma quiet_app (a b : Trace) : quiet a -> quiet b -> quiet (a ++ b).
Proof.
  intros (A1 & A2 & A3) (B1 & B2 & B3). repeat split.
  - now rewrite turns_app, A1, B1.
  - now rewrite accumulated_app, A2, B2.
  - now rewrite requestedModels_app, A3, B3.
Qed.

Lemma noticed_forward (inp : AgentInput) (s t : string) :
  noticed s (forward inp t) = 0.
Proof. unfold forward. now destruct (onStreamChunk inp). Qed.

Lemma noticed_searches (s : string) (qs : list string) (n : nat) :
  noticed s (map (fun q => EvSearch q n) qs) = 0.
Proof. induction qs; simpl; auto. Qed.

(** ** The stream loop *)


Lemma no_closing_no_tags (g : string) :
  hasClosingTag g = false ->
  searchMatchesOf g = [] /\ deepMatch g = None /\ imageMatch g = None /\
  projectMatch g = None /\ canvasMatch g = None /\ studyMatch g = None.
Proof.
  unfold hasClosingTag. rewrite !orb_false_iff.
  intros (((((((H1 & H2) & H3) & H4) & H5) & H6) & H7) & H8).
  assert (T : forall o c, Js.includes c g = false ->
                          capture (Js.matchTag o c g) = None).
  { intros o c Hc. destruct (Js.matchTag o c g) as [[b r]|] eqn:E;
      [|reflexivity].
    apply matchTag_closing in E. congruence. }
  repeat split.
  - unfold searchMatchesOf.
    destruct (Js.matchAll "<SEARCH>" "</SEARCH>" g) eqn:E; [reflexivity|].
    assert (Js.includes "</SEARCH>" g = true)
      by (eapply matchAll_closing; rewrite E; discriminate).
    congruence.
  - now apply T.
  - now apply T.
  - now apply T.
  - unfold canvasMatch. now rewrite !T.
  - now apply T.
Qed.

Lemma no_closing_no_control (g : string) :
  hasClosingTag g = false -> hasControlTag g = false.
Proof.
  intros H. apply no_closing_no_tags in H.
  destruct H as (H1 & H2 & H3 & H4 & H5 & H6).
  unfold hasControlTag. now rewrite H1, H2, H3, H4, H5, H6.
Qed.

Section StreamFacts.

Variable inp : AgentInput.
Variable cfg : Setup.

Lemma consumeStream_spec (items : list StreamItem) :
  forall g0 st tr how g st1,
  consumeStream inp cfg items g0 st = (tr, (how, g, st1)) ->
  g = (g0 ++ accumulated tr)%string /\
  finalResponseText st1 = (finalResponseText st ++ accumulated tr)%string /\
  fallbackSearchContext st1 = fallbackSearchContext st /\
  currentAction st1 = currentAction st /\
  loopCount st1 = loopCount st /\
  turns tr = 0 /\ requestedModels tr = [] /\
  (forall s, noticed s tr = 0) /\
  (hasClosingTag g0 = false -> how <> TagBreak -> hasClosingTag g = false) /\
  (how = TagBreak -> hasClosingTag g = true).
Proof.
  induction items as [|it rest IH]; intros g0 st tr how g st1 H.
  - inversion H; subst. cbn. rewrite !append_nil_r.
    repeat split; auto; discriminate.
  - destruct it as [aborted c|e]; cbn [consumeStream] in H.
    2:{ inversion H; subst. cbn. rewrite !append_nil_r.
        repeat split; auto; discriminate. }
    destruct aborted.
    { inversion H; subst. cbn. rewrite !append_nil_r.
      repeat split; auto; discriminate. }
    destruct (chunkText c) as [[|a t']|] eqn:Et.
    1, 3: now apply IH.
    set (t := String a t') in *.
    destruct (hasClosingTag (g0 ++ t)) eqn:Ec.
    + inversion H; subst. clear H.
      destruct (quiet_forward inp t) as (Q1 & Q2 & Q3).
      change (EvAppend t :: forward inp t) with ([EvAppend t] ++ forward inp t).
      rewrite turns_app, accumulated_app, requestedModels_app, Q1, Q2, Q3.
      cbn [accumulated turns filter isTurn length requestedModels app
           takeChunk finalResponseText fallbackSearchContext currentAction
           loopCount Nat.add].
      rewrite !append_nil_r.
      repeat split; auto.
      * intros s. cbn [noticed app]. apply noticed_forward.
      * congruence.
    + destruct (consumeStream inp cfg rest (g0 ++ t) (takeChunk cfg t c st))
        as [tr' [[how' g'] st']] eqn:Er.
      inversion H; subst. clear H.
      apply IH in Er.
      destruct Er as (E1 & E2 & E3 & E4 & E5 & E6 & E7 & E8 & E9 & E10).
      destruct (quiet_forward inp t) as (Q1 & Q2 & Q3).
      change (EvAppend t :: forward inp t ++ tr')
        with ([EvAppend t] ++ forward inp t ++ tr').
      rewrite !turns_app, !accumulated_app, !requestedModels_app,
        Q1, Q2, Q3, E6, E7.
      cbn [accumulated turns filter isTurn length requestedModels app
           Nat.add].
      cbn [takeChunk finalResponseText fallbackSearchContext currentAction
           loopCount] in E2, E3, E4, E5.
      rewrite !append_nil_r. cbn [append].
      repeat split; auto.
      * rewrite E1. now rewrite append_assoc.
      * rewrite E2. now rewrite append_assoc.
      * intros s. cbn [noticed app].
        rewrite noticed_app, noticed_forward, E8. reflexivity.
Qed.



End StreamFacts.

(** ** Visible text *)

Lemma hasInk_app (a b : string) : hasInk (a ++ b) = hasInk a || hasInk b.
Proof.
  induction a as [|c a IH]; [reflexivity|].
  cbn [append hasInk]. now rewrite IH, orb_assoc.
Qed.

Lemma trimStart_ink (s : string) : hasInk (Js.trimStart s) = hasInk s.
Proof.
  induction s as [|c s IH]; [reflexivity|].
  cbn [Js.trimStart]. destruct (Js.isSpace c) eqn:E.
  - cbn [hasInk]. now rewrite E, IH.
  - reflexivity.
Qed.

Lemma trimEnd_truthy (s : string) : Js.truthy (Js.trimEnd s) = hasInk s.
Proof.
  induction s as [|c s IH]; [reflexivity|].
  cbn [Js.trimEnd hasInk]. rewrite <- IH.
  destruct (Js.trimEnd s); cbn [Js.truthy].
  - rewrite orb_false_r. now destruct (Js.isSpace c).
  - now rewrite orb_true_r.
Qed.

Lemma trim_truthy (s : string) : Js.truthy (Js.trim s) = hasInk s.
Proof. unfold Js.trim. now rewrite trimEnd_truthy, trimStart_ink. Qed.

Lemma closing_search_ink (g : string) :
  Js.includes "</SEARCH>" g = true -> hasInk g = true.
Proof.
  intros H. apply includes_iff in H. destruct H as (b & a & ->).
  rewrite !hasInk_app. cbn. now rewrite orb_true_r.
Qed.

Lemma searchMatches_ink (g : string) :
  searchMatchesOf g <> [] -> hasInk g = true.
Proof.
  intros H. apply closing_search_ink. now apply matchAll_closing in H.
Qed.

(** ** What follows the stream *)

Section TurnFacts.

Variable inp : AgentInput.
Variable w : World.
Variable cfg : Setup.

Lemma finalize_backed (st : LoopState) :
  contextBacked st ->
  finalize inp st
  = ([], message inp (finalResponseText st) (metadataPayload st)).
Proof.
  intros Hb. unfold finalize.
  destruct (Js.truthy (fallbackSearchContext st)) eqn:E.
  - rewrite (Hb E). reflexivity.
  - now rewrite andb_false_r.
Qed.

Lemma multiSearch_spec (tw : TurnWorld) (ms : list string) (st : LoopState) :
  forall tr o, multiSearch inp w cfg tw ms st = (tr, o) ->
  quiet tr /\ (forall s, noticed s tr = 0) /\
  match o with
  | Some st' =>
      ms <> [] /\
      finalResponseText st' = finalResponseText st /\
      loopCount st' = loopCount st /\
      currentAction st' = SIMPLE
  | None => True
  end.
Proof.
  intros tr o H. unfold multiSearch in H.
  destruct (map Js.trim ms) as [|q0 qs] eqn:Eq.
  { inversion H; subst. repeat split; auto. }
  assert (Hne : ms <> []) by (intros ->; discriminate).
  destruct (shouldUseExternalSearch w q0 (modelSupportsSearch cfg) true).
  2:{ inversion H; subst. repeat split; auto. }
  pose proof (f_equal fst H) as Ht. pose proof (f_equal snd H) as Ho.
  cbn [fst snd] in Ht, Ho. subst tr o. clear H.
  split; [apply (quiet_searches (q0 :: qs))|].
  split; [intros s; apply (noticed_searches s (q0 :: qs))|].
  destruct (filter hasPages (parallelResults tw (q0 :: qs))); [exact I|].
  repeat split; auto.
Qed.

Lemma tagTransition_spec (ms : list string) (g : string) (st : LoopState) :
  match tagTransition ms g st with
  | Some st' =>
      finalResponseText st' = finalResponseText st /\
      fallbackSearchContext st' = fallbackSearchContext st /\
      loopCount st' = loopCount st /\
      (ms <> [] \/ deepMatch g <> None \/ imageMatch g <> None \/
       projectMatch g <> None \/ canvasMatch g <> None \/
       studyMatch g <> None)
  | None => noSwitchTag g
  end.
Proof.
  unfold tagTransition, noSwitchTag.
  destruct (deepMatch g); [repeat split; auto; right; left; discriminate|].
  destruct (_ && _) eqn:E.
  { repeat split; auto. left. destruct ms; [discriminate|discriminate]. }
  destruct (imageMatch g);
    [repeat split; auto; right; right; left; discriminate|].
  destruct (projectMatch g);
    [repeat split; auto; right; right; right; left; discriminate|].
  destruct (canvasMatch g);
    [repeat split; auto; right; right; right; right; left; discriminate|].
  destruct (studyMatch g);
    [repeat split; auto; right; right; right; right; right; discriminate|].
  repeat split; auto.
Qed.

Lemma hasControlTag_intro (g : string) :
  (searchMatchesOf g <> [] \/ deepMatch g <> None \/ imageMatch g <> None \/
   projectMatch g <> None \/ canvasMatch g <> None \/ studyMatch g <> None) ->
  hasControlTag g = true.
Proof.
  unfold hasControlTag. intros H.
  destruct (searchMatchesOf g); [|reflexivity].
  destruct (deepMatch g); [reflexivity|].
  destruct (imageMatch g); [reflexivity|].
  destruct (projectMatch g); [reflexivity|].
  destruct (canvasMatch g); [now rewrite orb_true_r|].
  destruct (studyMatch g); [now rewrite orb_true_r|].
  repeat destruct H as [H|H]; congruence.
Qed.

Lemma postStream_spec (tw : TurnWorld) (how : StreamEnd) (g : string)
    (st : LoopState) :
  forall tr r, postStream inp w cfg tw how g st = (tr, r) ->
  contextBacked st ->
  (searchMatchesOf g <> [] -> hasInk (finalResponseText st) = true) ->
  quiet tr /\ (forall s, noticed s tr = 0) /\
  match r with
  | Continue st' =>
      loopCount st' = loopCount st /\ contextBacked st' /\
      finalResponseText st' = finalResponseText st /\
      hasControlTag g = true
  | Return m how' g' =>
      how' = how /\ g' = g /\ noSwitchTag g /\
      m = message inp (finalResponseText st) (metadataPayload st)
  | Throw _ _ => False
  | TurnOutOfFuel => False
  end.
Proof.
  intros tr r H Hb Hink. unfold postStream in H.
  destruct (multiSearch inp w cfg tw (searchMatchesOf g) st) as [tr1 o] eqn:Em.
  apply multiSearch_spec in Em. destruct Em as (Q & N & Ho).
  destruct o as [st'|].
  - inversion H; subst. clear H. destruct Ho as (Hne & Hf & Hl & _).
    repeat split; try apply Q; auto.
    + intros _. rewrite trim_truthy, Hf. now apply Hink.
    + apply hasControlTag_intro. now left.
  - pose proof (tagTransition_spec (searchMatchesOf g) g st) as Ht.
    destruct (tagTransition (searchMatchesOf g) g st) as [st'|].
    + inversion H; subst. clear H. destruct Ht as (Hf & Hfb & Hl & Htag).
      repeat split; try apply Q; auto.
      * unfold contextBacked. rewrite Hf, Hfb. exact Hb.
      * now apply hasControlTag_intro.
    + rewrite (finalize_backed st Hb) in H. inversion H; subst. clear H.
      rewrite app_nil_r. repeat split; try apply Q; auto; apply Ht.
Qed.

End TurnFacts.

(** ** One turn *)

Section LoopFacts.

Variable inp : AgentInput.
Variable w : World.
Variable cfg : Setup.

Let wireModel := requestModel (Some (effectiveModel cfg)).

Lemma noticed_retryNotice (d : Z) :
  noticed fallbackNotice (emit inp (retryNotice d)) = 0.
Proof. unfold emit. destruct (onStreamChunk inp); reflexivity. Qed.

Lemma rounds_facts (p : string) (n : nat) : forall from,
  let tr := retriedRounds (Some (effectiveModel cfg)) p (Some (emit inp))
                          n from in
  turns tr = 0 /\ accumulated tr = EmptyString /\
  noticed fallbackNotice tr = 0 /\
  Forall (eq wireModel) (requestedModels tr).
Proof.
  induction n as [|n IH]; intros from; cbn zeta.
  - repeat split; constructor.
  - destruct (IH (from + 1)%Z) as (T & A & N & F). cbn zeta in *.
    cbn [retriedRounds notify].
    set (d := (2 ^ from * 2000 + 1000)%Z).
    set (rest := retriedRounds _ _ _ n _) in *.
    destruct (quiet_emit inp (retryNotice d)) as (Q1 & Q2 & Q3).
    change (request (Some (effectiveModel cfg)) p from
              :: emit inp (retryNotice d) ++ EvSleep d :: rest)
      with ([request (Some (effectiveModel cfg)) p from]
              ++ emit inp (retryNotice d) ++ [EvSleep d] ++ rest).
    rewrite !turns_app, !accumulated_app, !noticed_app, !requestedModels_app,
      Q1, Q2, Q3, T, A, N, noticed_retryNotice.
    repeat split. cbn. constructor; [reflexivity | exact F].
Qed.

(** The wrapper as the handler calls it: three retries, notices through
    the output callback. *)
Lemma handler_retry_facts (provider : Z -> JsError + list StreamItem)
    (p : string) :
  forall tr r,
  generateContentStreamWithRetry provider (Some (effectiveModel cfg)) p 3%Z
                                 (Some (emit inp)) = (tr, r) ->
  turns tr = 0 /\ accumulated tr = EmptyString /\
  noticed fallbackNotice tr = 0 /\
  Forall (eq wireModel) (requestedModels tr) /\
  ((exists items, r = Returned items) \/ (exists e, r = Rethrown e)).
Proof.
  intros tr r H.
  destruct (retry_characterization provider (Some (effectiveModel cfg)) p 3%Z
              (Some (emit inp)) ltac:(lia)) as (k & _ & _ & _ & E).
  rewrite E in H. injection H as <- <-.
  destruct (rounds_facts p k 0%Z) as (T & A & N & F). cbn zeta in *.
  rewrite turns_app, accumulated_app, noticed_app, requestedModels_app,
    T, A, N.
  repeat split.
  - apply Forall_app. split; [exact F|]. cbn. now constructor.
  - destruct (provider (Z.of_nat k)) as [e|items]; cbn [outcome];
      [right; now exists e | left; now exists items].
Qed.

Lemma backed_after_stream (st st1 : LoopState) (acc : string) :
  contextBacked st ->
  finalResponseText st1 = (finalResponseText st ++ acc)%string ->
  fallbackSearchContext st1 = fallbackSearchContext st ->
  contextBacked st1.
Proof.
  unfold contextBacked. intros Hb Hf Hfb. rewrite Hf, Hfb.
  intros H. apply Hb in H. rewrite trim_truthy in *.
  now rewrite hasInk_app, H.
Qed.

(** What one pass through the [default] block does. *)
Lemma simpleCase_spec (st : LoopState) :
  forall tr r, simpleCase inp w cfg st = (tr, r) ->
  contextBacked st ->
  turns tr = 0 /\ noticed fallbackNotice tr = 0 /\
  Forall (eq wireModel) (requestedModels tr) /\
  match r with
  | Continue st' =>
      loopCount st' = loopCount st /\ contextBacked st' /\
      finalResponseText st'
      = (finalResponseText st ++ accumulated tr)%string /\
      hasControlTag (accumulated tr) = true
  | Return m how g =>
      g = accumulated tr /\ noSwitchTag g /\
      (how <> TagBreak -> hasClosingTag g = false) /\
      (forall e, how <> StreamThrew e) /\
      exists meta,
        m = message inp (finalResponseText st ++ accumulated tr)%string meta
  | Throw e acc => acc = (finalResponseText st ++ accumulated tr)%string
  | TurnOutOfFuel => False
  end.
Proof.
  intros tr r H Hb. unfold simpleCase in H.
  destruct (generateContentStreamWithRetry _ _ _ _ _) as [tr1 r1] eqn:Er.
  apply handler_retry_facts in Er.
  destruct Er as (T1 & A1 & N1 & F1 & [(items & ->)|(e & ->)]).
  2:{ injection H as <- <-. rewrite A1, append_nil_r. now repeat split. }
  destruct (consumeStream inp cfg items "" st) as [tr2 [[how g] st1]] eqn:Ec.
  apply consumeStream_spec in Ec.
  destruct Ec as (Eg & Ef & Efb & Ea & El & T2 & M2 & N2 & Hclean & Htag).
  cbn [append] in Eg.
  assert (Hb1 : contextBacked st1) by (eapply backed_after_stream; eauto).
  assert (Hink : searchMatchesOf g <> [] ->
                 hasInk (finalResponseText st1) = true).
  { intros Hs. rewrite Ef, hasInk_app, <- Eg, (searchMatches_ink g Hs).
    apply orb_true_r. }
  assert (Hpost : forall tr3 r3,
    postStream inp w cfg (turn w (loopCount st)) how g st1 = (tr3, r3) ->
    (tr, r) = (tr1 ++ tr2 ++ tr3, r3) ->
    (forall e, how <> StreamThrew e) ->
    turns tr = 0 /\ noticed fallbackNotice tr = 0 /\
    Forall (eq wireModel) (requestedModels tr) /\
    match r with
    | Continue st' =>
        loopCount st' = loopCount st /\ contextBacked st' /\
        finalResponseText st'
        = (finalResponseText st ++ accumulated tr)%string /\
        hasControlTag (accumulated tr) = true
    | Return m how g =>
        g = accumulated tr /\ noSwitchTag g /\
        (how <> TagBreak -> hasClosingTag g = false) /\
        (forall e, how <> StreamThrew e) /\
        exists meta,
          m = message inp (finalResponseText st ++ accumulated tr)%string meta
    | Throw e acc => acc = (finalResponseText st ++ accumulated tr)%string
    | TurnOutOfFuel => False
    end).
  { intros tr3 r3 Ep Heq Hnothrow. injection Heq as -> ->.
    apply postStream_spec in Ep; [|assumption|assumption].
    destruct Ep as ((T3 & A3 & M3) & N3 & Hr).
    rewrite !turns_app, !noticed_app, !requestedModels_app,
      !accumulated_app, T1, T2, T3, N1, N2, N3, M2, M3, A1, A3.
    cbn [append Nat.add]. rewrite !app_nil_r, append_nil_r, <- Eg.
    repeat split; auto.
    destruct r3 as [st'|m how' g'| |]; try contradiction.
    - destruct Hr as (Hl & Hb' & Hf & Hc).
      repeat split; auto; congruence.
    - destruct Hr as (-> & -> & Hns & ->).
      refine (conj eq_refl (conj Hns (conj _ (conj Hnothrow _)))).
      + intros Hnt. apply Hclean; [reflexivity | exact Hnt].
      + exists (metadataPayload st1). now rewrite Ef, <- Eg. }
  destruct how as [| | |e].
  4:{ injection H as <- <-.
      rewrite turns_app, noticed_app, requestedModels_app, accumulated_app,
        T1, T2, N1, N2, M2, A1, app_nil_r.
      cbn [append]. repeat split; auto. }
  all: destruct (postStream inp w cfg (turn w (loopCount st)) _ g st1)
         as [tr3 r3] eqn:Ep.
  all: apply (Hpost tr3 r3 eq_refl); [now rewrite <- H | discriminate].
Qed.

Lemma turnBody_eq (st : LoopState) :
  turnBody inp w cfg st = simpleCase inp w cfg st.
Proof. unfold turnBody. now destruct (currentAction st). Qed.

End LoopFacts.

(** ** The dispatch loop *)

Section DispatchFacts.

Variable inp : AgentInput.
Variable w : World.
Variable cfg : Setup.

Let wireModel := requestModel (Some (effectiveModel cfg)).

Lemma dispatchLoop_spec (fuel : nat) :
  forall st tr x,
  dispatchLoop inp w cfg fuel st = (tr, x) ->
  contextBacked st ->
  turns tr <= MAX_LOOPS - loopCount st /\
  noticed fallbackNotice tr = 0 /\
  Forall (eq wireModel) (requestedModels tr) /\
  (MAX_LOOPS - loopCount st < fuel -> x <> LoopOutOfFuel) /\
  match x with
  | LoopBound st' =>
      finalResponseText st'
      = (finalResponseText st ++ accumulated tr)%string /\
      MAX_LOOPS <= loopCount st' /\
      loopCount st' = loopCount st + turns tr
  | LoopAborted st' =>
      finalResponseText st'
      = (finalResponseText st ++ accumulated tr)%string
  | LoopReturned m how g =>
      noSwitchTag g /\
      (how <> TagBreak -> hasClosingTag g = false) /\
      (forall e, how <> StreamThrew e) /\
      exists meta,
        m = message inp (finalResponseText st ++ accumulated tr)%string meta
  | LoopThrew e acc => acc = (finalResponseText st ++ accumulated tr)%string
  | LoopOutOfFuel => True
  end.
Proof.
  induction fuel as [|fuel IH]; intros st tr x H Hb.
  - injection H as <- <-. cbn -[MAX_LOOPS Nat.sub]. rewrite ?append_nil_r.
    repeat split; auto; try lia; try constructor.
  - cbn [dispatchLoop] in H.
    destruct (loopCount st <? MAX_LOOPS)%nat eqn:Elt.
    2:{ injection H as <- <-. apply Nat.ltb_ge in Elt. cbn -[MAX_LOOPS Nat.sub].
        rewrite ?append_nil_r.
        repeat split; auto; try lia; try constructor; try discriminate. }
    apply Nat.ltb_lt in Elt.
    destruct (signalAborted (turn w (S (loopCount st)))).
    { injection H as <- <-. cbn -[MAX_LOOPS Nat.sub]. rewrite ?append_nil_r.
      repeat split; auto; try lia; try constructor; try discriminate. }
    cbv zeta in H.
    destruct (turnBody inp w cfg (bump st)) as [tr1 r] eqn:Et.
    rewrite turnBody_eq in Et.
    apply simpleCase_spec in Et; [|exact Hb].
    destruct Et as (T1 & N1 & F1 & Hr).
    fold wireModel in F1.
    cbn [bump finalResponseText loopCount] in Hr.
    set (ev := EvTurn _ _ _) in H.
    destruct r as [st2|m how g|e acc|].
    + destruct (dispatchLoop inp w cfg fuel st2) as [tr2 x2] eqn:Ed.
      injection H as <- <-.
      destruct Hr as (Hl & Hb2 & Hf & _).
      apply IH in Ed; [|exact Hb2].
      destruct Ed as (T2 & N2 & F2 & Hfuel & Hx).
      rewrite Hl in T2, Hfuel. rewrite Hf in Hx.
      change (ev :: tr1 ++ tr2) with ([ev] ++ tr1 ++ tr2).
      rewrite !turns_app, !noticed_app, !requestedModels_app,
        !accumulated_app, T1, N1, N2.
      cbn [append Nat.add app]. unfold ev at 1 2 3. cbn -[MAX_LOOPS Nat.sub].
      refine (conj _ (conj eq_refl (conj _ (conj _ _)))).
      * lia.
      * apply Forall_app. now split.
      * intros Hlt. apply Hfuel. lia.
      * destruct x2; rewrite <- ?append_assoc; try exact Hx.
        destruct Hx as (Hx1 & Hx2 & Hx3).
        repeat split; auto. rewrite Hx3, Hl. lia.
    + injection H as <- <-.
      change (ev :: tr1) with ([ev] ++ tr1).
      rewrite !turns_app, !noticed_app, !requestedModels_app,
        !accumulated_app, T1, N1.
      unfold ev at 1 2 3 4. cbn -[MAX_LOOPS Nat.sub].
      destruct Hr as (_ & Hns & Hc & Hnt & Hm).
      repeat split; auto; try lia; try discriminate; apply Hns.
    + injection H as <- <-.
      change (ev :: tr1) with ([ev] ++ tr1).
      rewrite !turns_app, !noticed_app, !requestedModels_app,
        !accumulated_app, T1, N1.
      unfold ev at 1 2 3 4. cbn -[MAX_LOOPS Nat.sub].
      repeat split; auto; try lia; try discriminate.
    + contradiction.
Qed.

End DispatchFacts.

(** ** The whole call *)

Section AgentFacts.

Variable inp : AgentInput.
Variable w : World.

Lemma initialState_backed (a : RouterAction) (meta : list GroundingChunk) :
  contextBacked (initialState inp a meta).
Proof. unfold contextBacked. cbn. discriminate. Qed.

Lemma initialExternalSearch_facts (cfg : Setup) :
  quiet (fst (initialExternalSearch inp w cfg)) /\
  noticed fallbackNotice (fst (initialExternalSearch inp w cfg)) = 0.
Proof.
  unfold initialExternalSearch.
  destruct (shouldUseExternalSearch w (prompt inp) (modelSupportsSearch cfg)
              false); cbn [fst]; [|now repeat split].
  split.
  - apply quiet_app; [apply quiet_emit | now repeat split].
  - rewrite noticed_app. unfold emit.
    destruct (onStreamChunk inp); reflexivity.
Qed.

Lemma tryBlock_spec (fuel : nat) (cfg : Setup) :
  forall tr x, tryBlock inp w fuel cfg = (tr, x) ->
  turns tr <= MAX_LOOPS /\
  noticed fallbackNotice tr = 0 /\
  Forall (eq (requestModel (Some (effectiveModel cfg)))) (requestedModels tr) /\
  (MAX_LOOPS < fuel -> x <> LoopOutOfFuel) /\
  match x with
  | LoopBound st' =>
      finalResponseText st' = accumulated tr /\ MAX_LOOPS <= turns tr
  | LoopAborted st' => finalResponseText st' = accumulated tr
  | LoopReturned m how g =>
      noSwitchTag g /\
      (how <> TagBreak -> hasClosingTag g = false) /\
      (forall e, how <> StreamThrew e) /\
      exists meta, m = message inp (accumulated tr) meta
  | LoopThrew e acc => acc = accumulated tr
  | LoopOutOfFuel => True
  end.
Proof.
  intros tr x H. unfold tryBlock in H.
  destruct (route w) as [e|action].
  { injection H as <- <-. cbn -[MAX_LOOPS].
    repeat split; auto; try constructor; try discriminate.
    unfold MAX_LOOPS; lia. }
  destruct (initialExternalSearch_facts cfg) as ((T1 & A1 & M1) & N1).
  destruct (initialExternalSearch inp w cfg) as [tr1 meta].
  cbn [fst] in *.
  destruct (getContext w) as [e|].
  { injection H as <- <-.
    change (EvRoute :: tr1) with ([EvRoute] ++ tr1).
    rewrite turns_app, noticed_app, requestedModels_app, accumulated_app,
      T1, A1, M1, N1. cbn -[MAX_LOOPS].
    repeat split; auto; try constructor; try discriminate.
    unfold MAX_LOOPS; lia. }
  destruct (dispatchLoop inp w cfg fuel (initialState inp action meta))
    as [tr2 x2] eqn:Ed.
  injection H as <- <-.
  apply dispatchLoop_spec in Ed; [|apply initialState_backed].
  destruct Ed as (T2 & N2 & F2 & Hfuel & Hx).
  cbn [initialState loopCount finalResponseText append] in T2, Hfuel, Hx.
  rewrite Nat.sub_0_r in T2, Hfuel.
  change (EvRoute :: tr1 ++ tr2) with ([EvRoute] ++ tr1 ++ tr2).
  rewrite !turns_app, !noticed_app, !requestedModels_app, !accumulated_app,
    T1, A1, M1, N1, N2.
  cbn -[MAX_LOOPS].
  refine (conj T2 (conj eq_refl (conj F2 (conj Hfuel _)))).
  destruct x2; try exact Hx.
  destruct Hx as (Hx1 & Hx2 & Hx3). split; [exact Hx1 | lia].
Qed.

Lemma setup_quiet : quiet (fst (setup inp)).
Proof.
  unfold setup. destruct (modeModel inp) as [m budget].
  destruct (needsThinkingSwitch m budget);
    destruct (negb (isGoogleModel _) && keyMissing inp); cbn [fst];
    repeat apply quiet_app; try apply quiet_emit; apply quiet_nil.
Qed.

(** The outcome of a call outside instant mode, read off its trace. *)
Lemma run_spec (fuel : nat) :
  thinkingMode inp <> Instant ->
  let r := runAutonomousAgentFuel inp w fuel in
  turns (trace r) <= MAX_LOOPS /\
  noticed fallbackNotice (trace r)
  = noticed fallbackNotice (fst (setup inp)) /\
  Forall (eq (requestModel (Some (effectiveModel (snd (setup inp))))))
         (requestedModels (trace r)) /\
  (MAX_LOOPS < fuel -> exit r <> ExitOutOfFuel) /\
  match exit r with
  | ExitInstant => False
  | ExitBound =>
      MAX_LOOPS <= turns (trace r) /\
      exists meta,
        result r = Resolved (message inp (accumulated (trace r)) meta)
  | ExitAbortedAtTop =>
      exists meta,
        result r = Resolved (message inp (accumulated (trace r)) meta)
  | ExitFinalized how g =>
      noSwitchTag g /\
      (how <> TagBreak -> hasClosingTag g = false) /\
      (forall e, how <> StreamThrew e) /\
      exists meta,
        result r = Resolved (message inp (accumulated (trace r)) meta)
  | ExitCaught e =>
      result r = Resolved (catchClause inp w e (accumulated (trace r)))
  | ExitOutOfFuel => result r = NoResult
  end.
Proof.
  intros Hmode. cbv zeta. unfold runAutonomousAgentFuel.
  destruct setup_quiet as (T0 & A0 & M0).
  destruct (setup inp) as [tr0 cfg]. cbn [fst snd] in *.
  destruct (tryBlock inp w fuel cfg) as [tr x] eqn:Et.
  apply tryBlock_spec in Et. destruct Et as (T & N & F & Hfuel & Hx).
  assert (Hgoal :
    forall r, trace r = tr0 ++ tr ->
    (MAX_LOOPS < fuel -> exit r <> ExitOutOfFuel) ->
    match exit r with
    | ExitInstant => False
    | ExitBound =>
        MAX_LOOPS <= turns (trace r) /\
        exists meta,
          result r = Resolved (message inp (accumulated (trace r)) meta)
    | ExitAbortedAtTop =>
        exists meta,
          result r = Resolved (message inp (accumulated (trace r)) meta)
    | ExitFinalized how g =>
        noSwitchTag g /\
        (how <> TagBreak -> hasClosingTag g = false) /\
        (forall e, how <> StreamThrew e) /\
        exists meta,
          result r = Resolved (message inp (accumulated (trace r)) meta)
    | ExitCaught e =>
        result r = Resolved (catchClause inp w e (accumulated (trace r)))
    | ExitOutOfFuel => result r = NoResult
    end ->
    turns (trace r) <= MAX_LOOPS /\
    noticed fallbackNotice (trace r) = noticed fallbackNotice tr0 /\
    Forall (eq (requestModel (Some (effectiveModel cfg))))
           (requestedModels (trace r)) /\
    (MAX_LOOPS < fuel -> exit r <> ExitOutOfFuel) /\
    match exit r with
    | ExitInstant => False
    | ExitBound =>
        MAX_LOOPS <= turns (trace r) /\
        exists meta,
          result r = Resolved (message inp (accumulated (trace r)) meta)
    | ExitAbortedAtTop =>
        exists meta,
          result r = Resolved (message inp (accumulated (trace r)) meta)
    | ExitFinalized how g =>
        noSwitchTag g /\
        (how <> TagBreak -> hasClosingTag g = false) /\
        (forall e, how <> StreamThrew e) /\
        exists meta,
          result r = Resolved (message inp (accumulated (trace r)) meta)
    | ExitCaught e =>
        result r = Resolved (catchClause inp w e (accumulated (trace r)))
    | ExitOutOfFuel => result r = NoResult
    end).
  { intros r Htr Hf Hm.
    refine (conj _ (conj _ (conj _ (conj Hf Hm)))); rewrite Htr.
    - now rewrite turns_app, T0.
    - now rewrite noticed_app, N, Nat.add_0_r.
    - now rewrite requestedModels_app, M0. }
  assert (Hacc : accumulated (tr0 ++ tr) = accumulated tr)
    by (rewrite accumulated_app, A0; reflexivity).
  destruct (thinkingMode inp); [congruence| | |].
  all: destruct x as [st|st|m how g|e acc|]; apply Hgoal;
    cbn [trace exit result]; try reflexivity; try discriminate;
    rewrite ?Hacc.
  all: try (intros Hlt; exfalso; now apply (Hfuel Hlt)).
  all: try (rewrite Hx; reflexivity).
  all: try (rewrite <- Hx; now eexists).
  all: try (destruct Hx as (Hx & Hx'); rewrite <- Hx; split;
            [now rewrite turns_app, T0 | now eexists]).
  all: destruct Hx as (H1 & H2 & H3 & meta & ->);
    refine (conj H1 (conj H2 (conj H3 _))); now exists meta.
Qed.

End AgentFacts.

(* ===================================================================== *)
(** * The claims *)
(* ===================================================================== *)

Lemma instant_exit (inp : AgentInput) (w : World) (fuel : nat) :
  thinkingMode inp = Instant ->
  exit (runAutonomousAgentFuel inp w fuel) = ExitInstant /\
  trace (runAutonomousAgentFuel inp w fuel) = [] /\
  result (runAutonomousAgentFuel inp w fuel) <> NoResult.
Proof.
  intros H. unfold runAutonomousAgentFuel, instantMode. rewrite H.
  destruct (generateFreeCompletion w); repeat split; discriminate.
Qed.

Lemma mode_cases (inp : AgentInput) :
  thinkingMode inp = Instant \/ thinkingMode inp <> Instant.
Proof. destruct (thinkingMode inp); (now left) || (right; discriminate). Qed.

(** C1.  Whatever the input and whatever the collaborators do, a call
    goes through at most 6 turns of the dispatch loop: the bound comes from
    the loop condition and holds for any amount of fuel given to the model.
    With the fuel [runAutonomousAgent] uses the model always produces the
    outcome of the call, and outside instant mode that outcome is a
    message. *)
Theorem dispatch_loop_bound (inp : AgentInput) (w : World) :
  (forall fuel, turns (trace (runAutonomousAgentFuel inp w fuel)) <= 6) /\
  result (runAutonomousAgent inp w) <> NoResult /\
  (thinkingMode inp <> Instant ->
   exists m, result (runAutonomousAgent inp w) = Resolved m).
Proof.
  assert (Hres : thinkingMode inp <> Instant ->
                 exists m, result (runAutonomousAgent inp w) = Resolved m).
  { intros Hmode. unfold runAutonomousAgent.
    destruct (run_spec inp w (S MAX_LOOPS) Hmode) as (_ & _ & _ & Hfuel & Hx).
    specialize (Hfuel ltac:(lia)).
    destruct (exit (runAutonomousAgentFuel inp w (S MAX_LOOPS))).
    - contradiction.
    - destruct Hx as (_ & meta & ->). now eexists.
    - destruct Hx as (meta & ->). now eexists.
    - destruct Hx as (_ & _ & _ & meta & ->). now eexists.
    - rewrite Hx. now eexists.
    - congruence. }
  split; [|split].
  - intros fuel. destruct (mode_cases inp) as [Hi|Hn].
    + destruct (instant_exit inp w fuel Hi) as (_ & -> & _). cbn. lia.
    + now destruct (run_spec inp w fuel Hn) as (T & _).
  - destruct (mode_cases inp) as [Hi|Hn].
    + now destruct (instant_exit inp w (S MAX_LOOPS) Hi) as (_ & _ & R).
    + destruct (Hres Hn) as (m & E). unfold runAutonomousAgent in *.
      rewrite E. discriminate.
  - exact Hres.
Qed.

Lemma dispatch_loop_bound_witness :
  thinkingMode (sampleInput "gemini-2.5-flash" Standard) <> Instant /\
  exists m,
    result (runAutonomousAgent (sampleInput "gemini-2.5-flash" Standard)
                               deepForever) = Resolved m.
Proof.
  split; [discriminate|].
  apply (dispatch_loop_bound (sampleInput "gemini-2.5-flash" Standard)
                             deepForever).
  discriminate.
Defined.

Example deepForever_takes_six_turns :
  turns (trace (runAutonomousAgent (sampleInput "gemini-2.5-flash" Standard)
                                   deepForever)) = 6 /\
  exit (runAutonomousAgent (sampleInput "gemini-2.5-flash" Standard)
                           deepForever) = ExitBound.
Proof. split; vm_compute; reflexivity. Qed.




(** ** Where the action changes, and how a call ends *)

Lemma no_turn_events (tr : Trace) (n : nat) (a : RouterAction) (p : string) :
  turns tr = 0 -> ~ In (EvTurn n a p) tr.
Proof.
  unfold turns. induction tr as [|e tr IH]; intros H Hin; [exact Hin|].
  destruct Hin as [->|Hin]; [discriminate H|].
  destruct e; cbn in H; try discriminate; now apply IH.
Qed.

Section ActionFacts.

Variable inp : AgentInput.
Variable w : World.
Variable cfg : Setup.

Lemma postStream_continue (tw : TurnWorld) (how : StreamEnd) (g : string)
    (st st' : LoopState) (tr : Trace) :
  postStream inp w cfg tw how g st = (tr, Continue st') ->
  hasControlTag g = true /\ accumulated tr = EmptyString.
Proof.
  unfold postStream. intros H.
  destruct (multiSearch inp w cfg tw (searchMatchesOf g) st) as [tr1 o] eqn:Em.
  apply multiSearch_spec in Em. destruct Em as ((_ & A & _) & _ & Ho).
  destruct o as [st1|].
  - injection H as <- <-. split; [|exact A].
    apply hasControlTag_intro. left. apply Ho.
  - pose proof (tagTransition_spec (searchMatchesOf g) g st) as Ht.
    destruct (tagTransition (searchMatchesOf g) g st) as [st1|].
    + injection H as <- <-. split; [|exact A].
      apply hasControlTag_intro. apply Ht.
    + destruct (finalize inp st). discriminate H.
Qed.

(** The loop is re-entered only after a turn whose generated text holds a
    control tag. *)
Lemma turnBody_continue (st st' : LoopState) (tr : Trace) :
  turnBody inp w cfg st = (tr, Continue st') ->
  hasControlTag (accumulated tr) = true.
Proof.
  rewrite turnBody_eq. unfold simpleCase. intros H.
  destruct (generateContentStreamWithRetry _ _ _ _ _) as [tr1 r1] eqn:Er.
  apply handler_retry_facts in Er. destruct Er as (_ & A1 & _ & _ & _).
  destruct r1 as [items|e| |]; try discriminate H.
  destruct (consumeStream inp cfg items "" st) as [tr2 [[how g] st1]] eqn:Ec.
  apply consumeStream_spec in Ec. destruct Ec as (Eg & _). cbn [append] in Eg.
  assert (Hp : forall tr3 r3,
    postStream inp w cfg (turn w (loopCount st)) how g st1 = (tr3, r3) ->
    (tr1 ++ tr2 ++ tr3, r3) = (tr, Continue st') ->
    hasControlTag (accumulated tr) = true).
  { intros tr3 r3 Ep Heq. injection Heq as <- ->.
    apply postStream_continue in Ep. destruct Ep as (Hc & A3).
    rewrite !accumulated_app, A1, A3, append_nil_r. cbn [append].
    now rewrite <- Eg. }
  destruct how; try discriminate H.
  all: destruct (postStream inp w cfg _ _ g st1) as [tr3 r3] eqn:Ep.
  all: now apply (Hp tr3 r3 eq_refl).
Qed.

(** Turn events of the loop: the first carries the state the loop was
    entered with, the others have larger numbers. *)
Lemma dispatchLoop_turn_events (fuel : nat) :
  forall st tr x n a p,
  dispatchLoop inp w cfg fuel st = (tr, x) ->
  contextBacked st ->
  In (EvTurn n a p) tr ->
  (n = S (loopCount st) /\ a = currentAction st /\ p = currentPrompt st) \/
  S (loopCount st) < n.
Proof.
  induction fuel as [|fuel IH]; intros st tr x n a p H Hb Hin.
  - injection H as <- <-. destruct Hin.
  - cbn [dispatchLoop] in H.
    destruct (loopCount st <? MAX_LOOPS)%nat;
      [|injection H as <- <-; destruct Hin].
    destruct (signalAborted (turn w (S (loopCount st))));
      [injection H as <- <-; destruct Hin|].
    cbv zeta in H.
    destruct (turnBody inp w cfg (bump st)) as [tr1 r] eqn:Et.
    rewrite turnBody_eq in Et.
    apply simpleCase_spec in Et; [|exact Hb].
    destruct Et as (T1 & _ & _ & Hr).
    assert (Hhead : forall rest,
      In (EvTurn n a p)
         (EvTurn (loopCount (bump st)) (currentAction (bump st))
                 (currentPrompt (bump st)) :: tr1 ++ rest) ->
      (n = S (loopCount st) /\ a = currentAction st /\ p = currentPrompt st)
      \/ In (EvTurn n a p) rest).
    { intros rest [Heq|Hi].
      - injection Heq as <- <- <-. now left.
      - apply in_app_or in Hi. destruct Hi as [Hi|Hi]; [|now right].
        now apply no_turn_events in Hi. }
    destruct r as [st2|m how g|e acc|].
    + destruct (dispatchLoop inp w cfg fuel st2) as [tr2 x2] eqn:Ed.
      injection H as <- <-.
      destruct Hr as (Hl & Hb2 & _).
      destruct (Hhead tr2 Hin) as [?|Hi]; [now left|].
      cbn [bump loopCount] in Hl.
      destruct (IH _ _ _ _ _ _ Ed Hb2 Hi) as [(Hn & _)|Hlt]; right; lia.
    + injection H as <- <-. rewrite <- (app_nil_r tr1) in Hin.
      destruct (Hhead [] Hin) as [?|[]]. now left.
    + injection H as <- <-. rewrite <- (app_nil_r tr1) in Hin.
      destruct (Hhead [] Hin) as [?|[]]. now left.
    + contradiction.
Qed.

End ActionFacts.

Lemma run_trace (inp : AgentInput) (w : World) (fuel : nat) :
  thinkingMode inp <> Instant ->
  trace (runAutonomousAgentFuel inp w fuel)
  = fst (setup inp) ++ fst (tryBlock inp w fuel (snd (setup inp))).
Proof.
  intros Hn. unfold runAutonomousAgentFuel.
  destruct (thinkingMode inp); [congruence| | |].
  all: destruct (setup inp) as [tr0 cfg]; cbn [fst snd].
  all: destruct (tryBlock inp w fuel cfg) as [tr x]; now destruct x.
Qed.

Lemma tryBlock_first_turn (inp : AgentInput) (w : World) (fuel : nat)
    (cfg : Setup) (a : RouterAction) (p : string) :
  In (EvTurn 1 a p) (fst (tryBlock inp w fuel cfg)) ->
  route w = inr a /\ p = prompt inp.
Proof.
  unfold tryBlock. destruct (route w) as [e|action].
  { intros [H|[]]. discriminate H. }
  destruct (initialExternalSearch_facts inp w cfg) as ((T1 & _) & _).
  destruct (initialExternalSearch inp w cfg) as [tr1 meta]. cbn [fst] in T1.
  destruct (getContext w) as [e|].
  { intros [H|H]; [discriminate H | now apply no_turn_events in H]. }
  destruct (dispatchLoop inp w cfg fuel (initialState inp action meta))
    as [tr2 x2] eqn:Ed.
  cbn [fst]. intros [H|H]; [discriminate H|].
  apply in_app_or in H. destruct H as [H|H];
    [now apply no_turn_events in H|].
  destruct (dispatchLoop_turn_events inp w cfg fuel _ _ _ _ _ _ Ed
              (initialState_backed inp action meta) H)
    as [(_ & -> & ->)|Hlt].
  - now split.
  - cbn in Hlt. lia.
Qed.

Lemma first_turn_routed (inp : AgentInput) (w : World) (fuel : nat)
    (a : RouterAction) (p : string) :
  In (EvTurn 1 a p) (trace (runAutonomousAgentFuel inp w fuel)) ->
  route w = inr a /\ p = prompt inp.
Proof.
  destruct (mode_cases inp) as [Hi|Hn].
  { destruct (instant_exit inp w fuel Hi) as (_ & -> & _). intros []. }
  rewrite (run_trace inp w fuel Hn). intros H.
  apply in_app_or in H. destruct H as [H|H].
  - destruct (setup_quiet inp) as (T0 & _). now apply no_turn_events in H.
  - now apply tryBlock_first_turn in H.
Qed.

(** C9, as worded, fails.  A provider failure that is not a rate-limit
    error ends the loop through the catch clause, which is none of the
    three ways; and a response holding two SEARCH tags that the search
    heuristic declines is finalized although it holds control tags. *)
Lemma three_ways_counterexample :
  ~ endsInThreeWays
      (runAutonomousAgent (sampleInput "gemini-2.5-flash" Standard)
                          providerDown) /\
  ~ endsInThreeWays
      (runAutonomousAgent (sampleInput "gemini-2.5-flash" Standard)
                          searchDeclined).
Proof.
  split; intros [H|[[H|[(g & H)|(e & H & Hn)]]|(how & g & H & Hc)]];
    vm_compute in H; try discriminate H.
  - injection H as <-. vm_compute in Hn. discriminate Hn.
  - injection H as <- <-. vm_compute in Hc. discriminate Hc.
Qed.

(** C9, amended.  The first turn runs with the router's classification as
    its action (and the input prompt).  [loopCount++] leaves the action
    alone, and the loop body hands a state to a further turn, which is the
    only way the action can change, only when the text generated in that
    turn holds a control tag.  Outside instant mode a call ends in one of
    four ways: the bound is exhausted after 6 turns; the signal is seen set
    at the top of a turn; a turn finalizes because no transition applies,
    its text holding no DEEP, IMAGE, PROJECT, CANVAS or STUDY tag, and no
    control tag at all unless the stream was cut at a closing tag; or an
    exception reaches the catch clause, which turns it into a message. *)
Theorem action_changes_and_exits (inp : AgentInput) (w : World) :
  (forall a p,
     In (EvTurn 1 a p) (trace (runAutonomousAgent inp w)) ->
     route w = inr a /\ p = prompt inp) /\
  (forall st, currentAction (bump st) = currentAction st) /\
  (forall cfg st tr st',
     turnBody inp w cfg st = (tr, Continue st') ->
     hasControlTag (accumulated tr) = true) /\
  (thinkingMode inp <> Instant ->
   (exit (runAutonomousAgent inp w) = ExitBound /\
    turns (trace (runAutonomousAgent inp w)) = MAX_LOOPS) \/
   exit (runAutonomousAgent inp w) = ExitAbortedAtTop \/
   (exists how g,
      exit (runAutonomousAgent inp w) = ExitFinalized how g /\
      noSwitchTag g /\ (how <> TagBreak -> hasControlTag g = false)) \/
   (exists e,
      exit (runAutonomousAgent inp w) = ExitCaught e /\
      exists m, result (runAutonomousAgent inp w) = Resolved m)).
Proof.
  split; [|split; [|split]].
  - intros a p. apply first_turn_routed.
  - reflexivity.
  - intros cfg st tr st'. apply turnBody_continue.
  - intros Hn. unfold runAutonomousAgent.
    destruct (run_spec inp w (S MAX_LOOPS) Hn) as (T & _ & _ & Hfuel & Hx).
    specialize (Hfuel ltac:(lia)).
    destruct (exit (runAutonomousAgentFuel inp w (S MAX_LOOPS)))
      as [| | |how g|e|].
    + contradiction.
    + left. split; [reflexivity|]. destruct Hx as (Hx & _). lia.
    + right. now left.
    + right. right. left. exists how, g.
      destruct Hx as (Hns & Hc & _).
      repeat split; try apply Hns.
      intros Hnt. apply no_closing_no_control. now apply Hc.
    + right. right. right. exists e. split; [reflexivity|].
      rewrite Hx. now eexists.
    + congruence.
Qed.

Lemma action_changes_and_exits_witness :
  thinkingMode (sampleInput "gemini-2.5-flash" Standard) <> Instant /\
  ((exit (runAutonomousAgent (sampleInput "gemini-2.5-flash" Standard)
                             plainAnswer) = ExitBound /\
    turns (trace (runAutonomousAgent (sampleInput "gemini-2.5-flash" Standard)
                                     plainAnswer)) = MAX_LOOPS) \/
   exit (runAutonomousAgent (sampleInput "gemini-2.5-flash" Standard)
                            plainAnswer) = ExitAbortedAtTop \/
   (exists how g,
      exit (runAutonomousAgent (sampleInput "gemini-2.5-flash" Standard)
                               plainAnswer) = ExitFinalized how g /\
      noSwitchTag g /\ (how <> TagBreak -> hasControlTag g = false)) \/
   (exists e,
      exit (runAutonomousAgent (sampleInput "gemini-2.5-flash" Standard)
                               plainAnswer) = ExitCaught e /\
      exists m,
        result (runAutonomousAgent (sampleInput "gemini-2.5-flash" Standard)
                                   plainAnswer) = Resolved m)).
Proof.
  split; [discriminate|].
  apply (action_changes_and_exits (sampleInput "gemini-2.5-flash" Standard)
                                  plainAnswer).
  discriminate.
Defined.

(** ** The fallback to the default model *)





(** ** A response without control tags *)

Section PlainFacts.

Variable inp : AgentInput.
Variable w : World.
Variable cfg : Setup.



End PlainFacts.



(** ** Tag precedence *)

Lemma filter_nil_existsb {X : Type} (f : X -> bool) (l : list X) :
  existsb f l = false <-> filter f l = [].
Proof.
  induction l as [|x l IH]; cbn; [tauto|].
  destruct (f x); cbn; [split; discriminate | exact IH].
Qed.

Lemma multiSearch_rule (inp : AgentInput) (w : World) (cfg : Setup)
    (tw : TurnWorld) (g : string) (st : LoopState) :
  snd (multiSearch inp w cfg tw (searchMatchesOf g) st)
  = ruleMatch inp w cfg tw g st MultiSearch.
Proof.
  unfold multiSearch, ruleMatch.
  destruct (map Js.trim (searchMatchesOf g)) as [|q0 qs]; [reflexivity|].
  destruct (shouldUseExternalSearch w q0 (modelSupportsSearch cfg) true);
    [|reflexivity].
  cbn [snd andb].
  destruct (existsb hasPages (parallelResults tw (q0 :: qs))) eqn:E.
  - destruct (filter hasPages (parallelResults tw (q0 :: qs))) eqn:F;
      [|reflexivity].
    apply filter_nil_existsb in F. congruence.
  - apply filter_nil_existsb in E. now rewrite E.
Qed.




Example deep_beats_image_and_project :
  snd (postStream (sampleInput "gemini-2.5-flash" Standard)
         (sampleWorld true (fun _ => searchFindsAll)) sampleSetup
         searchFindsAll TagBreak
         "<PROJECT>site</PROJECT><IMAGE>cat</IMAGE><DEEP>why</DEEP>"
         (initialState (sampleInput "gemini-2.5-flash" Standard) SIMPLE []))
  = Continue (switchTo DEEP_SEARCH "why"
                (initialState (sampleInput "gemini-2.5-flash" Standard)
                              SIMPLE [])).
Proof. reflexivity. Qed.

(** ** Search batches *)

Lemma searchOne_query (tw : TurnWorld) (i : nat) (q : string) :
  fst (searchOne tw i q) = q.
Proof.
  unfold searchOne. destruct (runMcpWebSearch tw i q) as [rs|]; [|reflexivity].
  now destruct (fetchContentsForResults tw i rs).
Qed.

Lemma searchOne_failed (tw : TurnWorld) (i : nat) (q : string) :
  runMcpWebSearch tw i q = None \/
  (exists rs, runMcpWebSearch tw i q = Some rs /\
              fetchContentsForResults tw i rs = None) ->
  searchOne tw i q = (q, []).
Proof.
  unfold searchOne. intros [->|(rs & -> & ->)]; reflexivity.
Qed.

Lemma searchOne_found (tw : TurnWorld) (i : nat) (q : string)
    (rs pages : list WebSearchResult) :
  runMcpWebSearch tw i q = Some rs ->
  fetchContentsForResults tw i rs = Some pages ->
  searchOne tw i q = (q, pages).
Proof. unfold searchOne. now intros -> ->. Qed.

Lemma searchFrom_queries (tw : TurnWorld) (qs : list string) :
  forall i0, map fst (searchFrom tw i0 qs) = qs.
Proof.
  induction qs as [|q qs IH]; intros i0; [reflexivity|].
  cbn [searchFrom map]. now rewrite searchOne_query, IH.
Qed.

Lemma searchFrom_nth (tw : TurnWorld) (qs : list string) :
  forall i0 i q,
  nth_error qs i = Some q ->
  nth_error (searchFrom tw i0 qs) i = Some (searchOne tw (i0 + i) q).
Proof.
  induction qs as [|q' qs IH]; intros i0 i q H.
  - destruct i; discriminate H.
  - destruct i as [|i]; cbn [searchFrom nth_error] in *.
    + injection H as ->. now rewrite Nat.add_0_r.
    + rewrite (IH (S i0) i q H). f_equal. f_equal. lia.
Qed.

(** What follows the stream, by cases on the batch. *)
Lemma postStream_result (inp : AgentInput) (w : World) (cfg : Setup)
    (tw : TurnWorld) (how : StreamEnd) (g : string) (st : LoopState) :
  snd (postStream inp w cfg tw how g st)
  = match ruleMatch inp w cfg tw g st MultiSearch with
    | Some st' => Continue st'
    | None =>
        match tagTransition (searchMatchesOf g) g st with
        | Some st' => Continue st'
        | None => Return (snd (finalize inp st)) how g
        end
    end.
Proof.
  unfold postStream. rewrite <- multiSearch_rule.
  destruct (multiSearch inp w cfg tw (searchMatchesOf g) st) as [tr [st'|]];
    cbn [snd]; [reflexivity|].
  destruct (tagTransition (searchMatchesOf g) g st); [reflexivity|].
  now destruct (finalize inp st).
Qed.

(** Without a SEARCH tag counted, the single-search rule is the only one
    that can tell. *)
Lemma tagTransition_without_search (ms : list string) (g : string)
    (st : LoopState) :
  (List.length ms =? 1)%nat && negb (Js.truthy (fallbackSearchContext st))
  = false \/ deepMatch g <> None ->
  tagTransition ms g st = tagTransition [] g st.
Proof.
  unfold tagTransition. intros [H|H].
  - rewrite H. cbn [List.length Nat.eqb andb]. reflexivity.
  - destruct (deepMatch g); [reflexivity | congruence].
Qed.

(** C5, as worded, fails: a lone SEARCH tag whose search fails is not
    treated as unmatched.  The batch brings no page, and then the
    single-search rule of lines 411-413 takes the tag: the loop is
    re-entered with action SEARCH, where it would have finalized had the
    tag been passed over. *)
Lemma batch_all_failed_counterexample :
  (map Js.trim (searchMatchesOf "<SEARCH>a</SEARCH>") = ["a"] /\
   shouldUseExternalSearch (sampleWorld true (fun _ => searchFindsNothing))
     "a" (modelSupportsSearch sampleSetup) true = true /\
   existsb hasPages (parallelResults searchFindsNothing ["a"]) = false) /\
  ~ searchTagsUnmatched (sampleInput "gemini-2.5-flash" Standard)
      (sampleWorld true (fun _ => searchFindsNothing)) sampleSetup
      searchFindsNothing TagBreak "<SEARCH>a</SEARCH>"
      (initialState (sampleInput "gemini-2.5-flash" Standard) SIMPLE []) /\
  snd (postStream (sampleInput "gemini-2.5-flash" Standard)
         (sampleWorld true (fun _ => searchFindsNothing)) sampleSetup
         searchFindsNothing TagBreak "<SEARCH>a</SEARCH>"
         (initialState (sampleInput "gemini-2.5-flash" Standard) SIMPLE []))
  = Continue (switchTo SEARCH "a"
                (initialState (sampleInput "gemini-2.5-flash" Standard)
                              SIMPLE [])) /\
  tagTransition [] "<SEARCH>a</SEARCH>"
    (initialState (sampleInput "gemini-2.5-flash" Standard) SIMPLE [])
  = None.
Proof.
  split; [repeat split|]. split; [|split; reflexivity].
  unfold searchTagsUnmatched. intros H. vm_compute in H. discriminate H.
Qed.

(** C5, amended.  For a batch of SEARCH tags whose queries are run: every
    query has its entry in the batch result, in order, and a query whose
    search or fetch fails has an entry without pages, the batch going on; if
    some query brought pages the loop is re-entered with the synthesized
    state; if none did, the batch rule is passed over and the later rules
    decide.  Then a lone tag, when no DEEP tag is present and no earlier
    batch has left a search context, is taken by the single-search rule:
    the loop is re-entered with action SEARCH and the text of the tag as
    prompt.  In every other case (two tags or more, a search context left
    by an earlier batch, or a DEEP tag) the SEARCH tags are treated as
    unmatched: the remaining rules decide, and the turn is finalized when
    none of them applies. *)
Theorem batch_partial_failure (inp : AgentInput) (w : World) (cfg : Setup)
    (tw : TurnWorld) (how : StreamEnd) (g : string) (st : LoopState)
    (q0 : string) (qs : list string) :
  map Js.trim (searchMatchesOf g) = q0 :: qs ->
  shouldUseExternalSearch w q0 (modelSupportsSearch cfg) true = true ->
  map fst (parallelResults tw (q0 :: qs)) = q0 :: qs /\
  (forall i q, nth_error (q0 :: qs) i = Some q ->
     nth_error (parallelResults tw (q0 :: qs)) i = Some (searchOne tw i q)) /\
  (forall i q,
     runMcpWebSearch tw i q = None \/
     (exists rs, runMcpWebSearch tw i q = Some rs /\
                 fetchContentsForResults tw i rs = None) ->
     searchOne tw i q = (q, [])) /\
  (existsb hasPages (parallelResults tw (q0 :: qs)) = true ->
   snd (postStream inp w cfg tw how g st)
   = Continue (synthesize inp (q0 :: qs)
                 (filter hasPages (parallelResults tw (q0 :: qs))) st)) /\
  (existsb hasPages (parallelResults tw (q0 :: qs)) = false ->
   snd (postStream inp w cfg tw how g st)
   = match tagTransition (searchMatchesOf g) g st with
     | Some st' => Continue st'
     | None => Return (snd (finalize inp st)) how g
     end) /\
  (existsb hasPages (parallelResults tw (q0 :: qs)) = false ->
   qs = [] -> Js.truthy (fallbackSearchContext st) = false ->
   deepMatch g = None ->
   snd (postStream inp w cfg tw how g st)
   = Continue (switchTo SEARCH (hd EmptyString (searchMatchesOf g)) st)) /\
  (existsb hasPages (parallelResults tw (q0 :: qs)) = false ->
   qs <> [] \/ Js.truthy (fallbackSearchContext st) = true \/
   deepMatch g <> None ->
   searchTagsUnmatched inp w cfg tw how g st).
Proof.
  intros Hq Hgate.
  assert (Hnone : existsb hasPages (parallelResults tw (q0 :: qs)) = false ->
    snd (postStream inp w cfg tw how g st)
    = match tagTransition (searchMatchesOf g) g st with
      | Some st' => Continue st'
      | None => Return (snd (finalize inp st)) how g
      end).
  { intros Hnone. rewrite postStream_result. unfold ruleMatch.
    now rewrite Hq, Hgate, Hnone. }
  assert (Hlen : List.length (searchMatchesOf g) = S (List.length qs)).
  { rewrite <- (length_map Js.trim), Hq. reflexivity. }
  refine (conj _ (conj _ (conj _ (conj _ (conj Hnone (conj _ _)))))).
  - apply searchFrom_queries.
  - intros i q H. now apply (searchFrom_nth tw (q0 :: qs) 0 i q).
  - intros i q. apply searchOne_failed.
  - intros Hsome. rewrite postStream_result. unfold ruleMatch.
    now rewrite Hq, Hgate, Hsome.
  - intros Hfail -> Hctx Hdeep. rewrite (Hnone Hfail).
    unfold tagTransition. rewrite Hdeep, Hlen, Hctx. reflexivity.
  - intros Hfail Hcase. unfold searchTagsUnmatched. rewrite (Hnone Hfail).
    rewrite (tagTransition_without_search (searchMatchesOf g)); [reflexivity|].
    destruct Hcase as [Hqs | [Hctx | Hdeep]].
    + left. rewrite Hlen. destruct qs; [congruence | reflexivity].
    + left. rewrite Hctx. apply andb_false_r.
    + now right.
Qed.

Lemma batch_partial_failure_witness :
  (map Js.trim (searchMatchesOf "<SEARCH> a </SEARCH><SEARCH>b</SEARCH>")
   = ["a"; "b"] /\
   shouldUseExternalSearch (sampleWorld true (fun _ => searchLosesB)) "a"
     (modelSupportsSearch sampleSetup) true = true /\
   runMcpWebSearch searchLosesB 1 "b" = None /\
   existsb hasPages (parallelResults searchLosesB ["a"; "b"]) = true) /\
  (searchOne searchLosesB 1 "b" = ("b", []) /\
   snd (postStream (sampleInput "gemini-2.5-flash" Standard)
          (sampleWorld true (fun _ => searchLosesB)) sampleSetup searchLosesB
          TagBreak "<SEARCH> a </SEARCH><SEARCH>b</SEARCH>"
          (initialState (sampleInput "gemini-2.5-flash" Standard) SIMPLE []))
   = Continue
       (synthesize (sampleInput "gemini-2.5-flash" Standard) ["a"; "b"]
          (filter hasPages (parallelResults searchLosesB ["a"; "b"]))
          (initialState (sampleInput "gemini-2.5-flash" Standard) SIMPLE [])))
  /\
  (map Js.trim (searchMatchesOf "<SEARCH>a</SEARCH><SEARCH>b</SEARCH>")
   = ["a"; "b"] /\
   existsb hasPages (parallelResults searchFindsNothing ["a"; "b"]) = false /\
   ["b"] <> []) /\
  snd (postStream (sampleInput "gemini-2.5-flash" Standard)
         (sampleWorld true (fun _ => searchFindsNothing)) sampleSetup
         searchFindsNothing TagBreak "<SEARCH>a</SEARCH><SEARCH>b</SEARCH>"
         (initialState (sampleInput "gemini-2.5-flash" Standard) SIMPLE []))
  = Return (message (sampleInput "gemini-2.5-flash" Standard) EmptyString None)
           TagBreak "<SEARCH>a</SEARCH><SEARCH>b</SEARCH>".
Proof.
  split; [repeat split|].
  destruct (batch_partial_failure
              (sampleInput "gemini-2.5-flash" Standard)
              (sampleWorld true (fun _ => searchLosesB)) sampleSetup
              searchLosesB TagBreak "<SEARCH> a </SEARCH><SEARCH>b</SEARCH>"
              (initialState (sampleInput "gemini-2.5-flash" Standard)
                            SIMPLE [])
              "a" ["b"] eq_refl eq_refl) as (_ & _ & Hfail & Hsome & _).
  split; [split|].
  - apply Hfail. left. reflexivity.
  - apply Hsome. reflexivity.
  - assert (Hne : ["b"] <> []) by discriminate.
    split; [repeat split; exact Hne|].
    destruct (batch_partial_failure
                (sampleInput "gemini-2.5-flash" Standard)
                (sampleWorld true (fun _ => searchFindsNothing)) sampleSetup
                searchFindsNothing TagBreak
                "<SEARCH>a</SEARCH><SEARCH>b</SEARCH>"
                (initialState (sampleInput "gemini-2.5-flash" Standard)
                              SIMPLE [])
                "a" ["b"] eq_refl eq_refl) as (_ & _ & _ & _ & _ & _ & Hun).
    exact (Hun eq_refl (or_introl Hne)).
Defined.

(** ** The synthesized prompt *)

Lemma includes_refl (p : string) : Js.includes p p = true.
Proof.
  apply includes_iff. exists EmptyString, EmptyString.
  cbn [append]. now rewrite append_nil_r.
Qed.

Lemma includes_trans (p q s : string) :
  Js.includes p q = true -> Js.includes q s = true -> Js.includes p s = true.
Proof.
  rewrite !includes_iff. intros (b & a & ->) (b' & a' & ->).
  exists (b' ++ b)%string, (a ++ a')%string. now rewrite !append_assoc.
Qed.

Lemma includes_join (x sep : string) (l : list string) (e : string) :
  In e l -> Js.includes x e = true -> Js.includes x (Js.join sep l) = true.
Proof.
  intros Hin Hx. induction l as [|y l IH]; [destruct Hin|].
  cbn [Js.join]. destruct l as [|z l].
  - destruct Hin as [->|[]]. exact Hx.
  - destruct Hin as [->|Hin].
    + now apply includes_app_l.
    + apply includes_app_r, includes_app_r. now apply IH.
Qed.

Lemma renderPages_includes (pages : list WebSearchResult)
    (p : WebSearchResult) :
  In p pages ->
  Js.includes (title p) (renderPages pages) = true /\
  Js.includes (url p) (renderPages pages) = true /\
  Js.includes (Js.interpolate (content p)) (renderPages pages) = true.
Proof.
  unfold renderPages. generalize 0 as i.
  induction pages as [|p' pages IH]; intros i Hin; [destruct Hin|].
  cbn [renderPagesFrom].
  destruct Hin as [->|Hin].
  - repeat split; eapply includes_join; try (now left).
    + do 3 apply includes_app_r. apply includes_app_l, includes_refl.
    + do 5 apply includes_app_r. apply includes_app_l, includes_refl.
    + do 8 apply includes_app_r. apply includes_refl.
  - destruct (IH (S i) Hin) as (H1 & H2 & H3).
    assert (Hstep : forall x,
      Js.includes x (Js.join (nl ++ nl) (renderPagesFrom (S i) pages)) = true ->
      Js.includes x
        (Js.join (nl ++ nl)
           (("[" ++ Js.ofNat (i + 1) ++ "] " ++ title p' ++ " (" ++ url p'
               ++ "):" ++ nl ++ Js.interpolate (content p'))%string
            :: renderPagesFrom (S i) pages)) = true).
    { intros x Hx. cbn [Js.join].
      destruct (renderPagesFrom (S i) pages) eqn:E.
      - destruct pages; [destruct Hin | discriminate E].
      - now apply includes_app_r, includes_app_r. }
    repeat split; now apply Hstep.
Qed.

Lemma renderResult_includes (q : string) (pages : list WebSearchResult) :
  Js.includes q (renderResult (q, pages)) = true /\
  Js.includes (renderPages pages) (renderResult (q, pages)) = true.
Proof.
  unfold renderResult. cbn [fst snd]. split.
  - do 4 apply includes_app_r. apply includes_app_l, includes_refl.
  - do 8 apply includes_app_r. apply includes_refl.
Qed.

Lemma synthesisPrompt_context (inp : AgentInput) (queries : list string)
    (context : string) :
  Js.includes context (synthesisPrompt inp queries context) = true.
Proof.
  unfold synthesisPrompt.
  do 11 apply includes_app_r. apply includes_app_l, includes_refl.
Qed.

Lemma synthesisPrompt_query (inp : AgentInput) (queries : list string)
    (context q : string) :
  In q queries ->
  Js.includes q (synthesisPrompt inp queries context) = true.
Proof.
  intros Hin. unfold synthesisPrompt.
  do 6 apply includes_app_r. apply includes_app_l.
  apply (includes_join q nl _ ("- " ++ q)%string).
  - apply in_map_iff. now exists q.
  - apply includes_app_r, includes_refl.
Qed.

Lemma hasPages_nonempty (q : string) (pages : list WebSearchResult) :
  pages <> [] -> hasPages (q, pages) = true.
Proof. destruct pages; [congruence | reflexivity]. Qed.

(** C6.  When the text generated in a turn holds two SEARCH tags, the
    queries (the trimmed tag bodies) are run, and both bring pages, the
    loop is re-entered with action SIMPLE and the synthesized prompt of
    line 388 over both results; that prompt contains both queries, the
    rendered result block of each query, and the title, URL and content of
    every page of either. *)
Theorem two_searches_synthesized (inp : AgentInput) (w : World)
    (cfg : Setup) (tw : TurnWorld) (how : StreamEnd) (g : string)
    (st : LoopState) (c1 c2 : string) (r1 r2 p1 p2 : list WebSearchResult) :
  searchMatchesOf g = [c1; c2] ->
  shouldUseExternalSearch w (Js.trim c1) (modelSupportsSearch cfg) true
  = true ->
  runMcpWebSearch tw 0 (Js.trim c1) = Some r1 ->
  fetchContentsForResults tw 0 r1 = Some p1 ->
  p1 <> [] ->
  runMcpWebSearch tw 1 (Js.trim c2) = Some r2 ->
  fetchContentsForResults tw 1 r2 = Some p2 ->
  p2 <> [] ->
  exists st',
    snd (postStream inp w cfg tw how g st) = Continue st' /\
    currentAction st' = SIMPLE /\
    currentPrompt st'
    = synthesisPrompt inp [Js.trim c1; Js.trim c2]
        (renderResult (Js.trim c1, p1) ++ renderResult (Js.trim c2, p2)) /\
    Js.includes (Js.trim c1) (currentPrompt st') = true /\
    Js.includes (Js.trim c2) (currentPrompt st') = true /\
    Js.includes (renderResult (Js.trim c1, p1)) (currentPrompt st') = true /\
    Js.includes (renderResult (Js.trim c2, p2)) (currentPrompt st') = true /\
    (forall p, In p (p1 ++ p2) ->
       Js.includes (title p) (currentPrompt st') = true /\
       Js.includes (url p) (currentPrompt st') = true /\
       Js.includes (Js.interpolate (content p)) (currentPrompt st') = true).
Proof.
  intros Hm Hgate Hs1 Hf1 Hn1 Hs2 Hf2 Hn2.
  set (Q1 := Js.trim c1) in *. set (Q2 := Js.trim c2) in *.
  assert (Hres : parallelResults tw [Q1; Q2] = [(Q1, p1); (Q2, p2)]).
  { unfold parallelResults. cbn [searchFrom].
    now rewrite (searchOne_found tw 0 Q1 r1 p1),
                (searchOne_found tw 1 Q2 r2 p2). }
  assert (Hvalid : filter hasPages [(Q1, p1); (Q2, p2)]
                   = [(Q1, p1); (Q2, p2)]).
  { cbn [filter]. now rewrite !hasPages_nonempty. }
  eexists. split.
  { rewrite postStream_result. unfold ruleMatch. rewrite Hm.
    cbn [map]. fold Q1 Q2. rewrite Hgate, Hres, Hvalid.
    cbn [existsb]. rewrite hasPages_nonempty by assumption.
    reflexivity. }
  cbn [synthesize currentAction currentPrompt].
  unfold aggregate. cbn [fold_left append].
  set (ctx := (renderResult (Q1, p1) ++ renderResult (Q2, p2))%string).
  set (sp := synthesisPrompt inp [Q1; Q2] ctx).
  assert (Hctx : Js.includes ctx sp = true) by apply synthesisPrompt_context.
  assert (H1 : Js.includes (renderResult (Q1, p1)) sp = true).
  { eapply includes_trans; [|exact Hctx]. apply includes_app_l, includes_refl. }
  assert (H2 : Js.includes (renderResult (Q2, p2)) sp = true).
  { eapply includes_trans; [|exact Hctx]. apply includes_app_r, includes_refl. }
  repeat split; auto.
  - apply synthesisPrompt_query. now left.
  - apply synthesisPrompt_query. right. now left.
  - apply in_app_or in H. destruct H as [H|H];
      [eapply includes_trans; [|exact H1] | eapply includes_trans; [|exact H2]].
    all: eapply includes_trans;
      [|apply (proj2 (renderResult_includes _ _))].
    all: now apply renderPages_includes.
  - apply in_app_or in H. destruct H as [H|H];
      [eapply includes_trans; [|exact H1] | eapply includes_trans; [|exact H2]].
    all: eapply includes_trans;
      [|apply (proj2 (renderResult_includes _ _))].
    all: now apply renderPages_includes.
  - apply in_app_or in H. destruct H as [H|H];
      [eapply includes_trans; [|exact H1] | eapply includes_trans; [|exact H2]].
    all: eapply includes_trans;
      [|apply (proj2 (renderResult_includes _ _))].
    all: now apply renderPages_includes.
Qed.

Lemma two_searches_synthesized_witness :
  (searchMatchesOf "<SEARCH>rust</SEARCH> and <SEARCH> rocq </SEARCH>"
   = ["rust"; " rocq "] /\
   shouldUseExternalSearch (sampleWorld true (fun _ => searchFindsAll))
     (Js.trim "rust") (modelSupportsSearch sampleSetup) true = true /\
   runMcpWebSearch searchFindsAll 0 (Js.trim "rust")
   = Some [samplePage "rust"] /\
   fetchContentsForResults searchFindsAll 0 [samplePage "rust"]
   = Some [samplePage "rust"] /\
   [samplePage "rust"] <> [] /\
   runMcpWebSearch searchFindsAll 1 (Js.trim " rocq ")
   = Some [samplePage "rocq"] /\
   fetchContentsForResults searchFindsAll 1 [samplePage "rocq"]
   = Some [samplePage "rocq"] /\
   [samplePage "rocq"] <> []) /\
  exists st',
    snd (postStream (sampleInput "gemini-2.5-flash" Standard)
           (sampleWorld true (fun _ => searchFindsAll)) sampleSetup
           searchFindsAll TagBreak
           "<SEARCH>rust</SEARCH> and <SEARCH> rocq </SEARCH>"
           (initialState (sampleInput "gemini-2.5-flash" Standard) SIMPLE []))
    = Continue st' /\
    currentAction st' = SIMPLE /\
    Js.includes "rust" (currentPrompt st') = true /\
    Js.includes "rocq" (currentPrompt st') = true /\
    Js.includes "about rust" (currentPrompt st') = true /\
    Js.includes "about rocq" (currentPrompt st') = true.
Proof.
  split; [repeat split; discriminate|].
  destruct (two_searches_synthesized
              (sampleInput "gemini-2.5-flash" Standard)
              (sampleWorld true (fun _ => searchFindsAll)) sampleSetup
              searchFindsAll TagBreak
              "<SEARCH>rust</SEARCH> and <SEARCH> rocq </SEARCH>"
              (initialState (sampleInput "gemini-2.5-flash" Standard)
                            SIMPLE [])
              "rust" " rocq " [samplePage "rust"] [samplePage "rocq"]
              [samplePage "rust"] [samplePage "rocq"]
              eq_refl eq_refl eq_refl eq_refl ltac:(discriminate)
              eq_refl eq_refl ltac:(discriminate))
    as (st' & Hc & Ha & _ & H1 & H2 & _ & _ & Hp).
  exists st'. repeat split; try assumption.
  - apply (Hp (samplePage "rust")). now left.
  - apply (Hp (samplePage "rocq")). right. now left.
Defined.
